(** * Progress tracking and navigation core of the birthday page (script.js)

    A shallow embedding of the [ProgressTracker] and [PageManager] classes,
    of the Konami-code key handler and of the two wrappers installed around
    [pageManager.navigateTo], followed by the theorems that settle the
    specification's claims about them.

    Modelling conventions.
    - A JavaScript [Set] of strings is a [gset string]; a [Map] or a plain
      object used as a dictionary is a [gmap string _].  Both abstract from
      the insertion order, on which no modelled operation depends.
    - An array is a [list]; [push] appends at the end and [pop] removes the
      last element.
    - Methods run in the monad [M]: they thread the [world] (the page
      manager with its tracker, and the browser around it) and either
      return a value or throw; the world reached at the throw is kept,
      because the mutations made before it stay in memory.
    - The text kept by [localStorage] is represented by what [JSON.parse]
      makes of it: nothing at all for text that does not parse, or a
      document of the layout [saveProgress] writes, any property of which
      may be missing.
    - The DOM, the timers and the animations are presentation: they appear
      only as entries of the browser's [log]. *)

From Stdlib Require Import QArith Qround.
From stdpp Require Import gmap strings pretty list fin_maps fin_sets.

Local Open Scope string_scope.

(** ** JavaScript values and exceptions *)

Inductive exn :=
| SyntaxError          (* JSON.parse on text that is not JSON *)
| TypeError            (* calling something that is not a function *)
| QuotaExceededError.  (* localStorage.setItem on a full store *)

(** ** Achievement records and the static metadata table *)

(** What [getAchievementData] returns: the three display properties, each
    [None] when reading it yields [undefined]. *)
Record AchievementData := {
  title : option string;
  description : option string;
  icon : option string
}.

(** The object stored in [achievements] (lines 246-252).  A property whose
    value is [undefined] is dropped by [JSON.stringify] and reads back as
    [undefined] after [JSON.parse], so [None] stands for both. *)
Record AchievementRecord := {
  a_id : string;
  a_title : option string;
  a_description : option string;
  a_icon : option string;
  a_unlockedAt : string
}.

(** Values a method hands back to its caller. *)
Inductive jsval :=
| Undefined
| Null
| Boolean (b : bool)
| Achievement (r : AchievementRecord).

#[global] Instance exn_eq_dec : EqDecision exn.
Proof. solve_decision. Defined.
#[global] Instance AchievementData_eq_dec : EqDecision AchievementData.
Proof. solve_decision. Defined.
#[global] Instance AchievementRecord_eq_dec : EqDecision AchievementRecord.
Proof. solve_decision. Defined.
#[global] Instance jsval_eq_dec : EqDecision jsval.
Proof. solve_decision. Defined.

(** Property names every object literal inherits from [Object.prototype]:
    [obj[name]] finds them on the prototype chain when [obj] has no own
    property of that name.  Each of them holds a function (or, for
    [__proto__], the prototype object): a truthy value that is not a
    number and has no [title], [description] or [icon]. *)
Definition Object_prototype_names : list string :=
  [ "constructor"; "hasOwnProperty"; "isPrototypeOf"; "propertyIsEnumerable";
    "toLocaleString"; "toString"; "valueOf"; "__proto__";
    "__defineGetter__"; "__defineSetter__"; "__lookupGetter__";
    "__lookupSetter__" ].

Definition inherited (name : string) : bool :=
  bool_decide (name ∈ Object_prototype_names).

(** Result of [literal[name]] on an object literal with own properties
    [own]. *)
Inductive property (A : Type) :=
| Own (a : A)          (* an own property of the literal *)
| Inherited            (* found on Object.prototype *)
| Missing.             (* undefined *)
Arguments Own {A} a.
Arguments Inherited {A}.
Arguments Missing {A}.

Definition literal_get {A} (own : list (string * A)) (name : string) : property A :=
  match (list_to_map own : gmap string A) !! name with
  | Some a => Own a
  | None => if inherited name then Inherited else Missing
  end.

Definition mkData (t d i : string) : AchievementData :=
  {| title := Some t; description := Some d; icon := Some i |}.

(** The [achievements] literal of [getAchievementData] (lines 259-301). *)
Definition achievement_table : list (string * AchievementData) :=
  [ ("first-visit-gallery", mkData "Memory Keeper" "Visited the photo gallery" "📸");
    ("first-visit-reasons", mkData "Heart Warmer" "Discovered why you're amazing" "🌟");
    ("first-visit-wishes", mkData "Wish Collector" "Read birthday wishes" "💕");
    ("first-visit-games", mkData "Fun Seeker" "Started playing games" "🎮");
    ("surprise-message", mkData "Secret Keeper" "Unlocked a secret message" "💌");
    ("surprise-photo", mkData "Photo Detective" "Found the hidden photo" "📷");
    ("surprise-wish", mkData "Wish Finder" "Discovered the special wish" "🌟");
    ("explorer", mkData "Complete Explorer" "Visited all sections!" "🏆") ].

Definition generic_achievement : AchievementData :=
  mkData "Achievement Unlocked" "You did something special!" "✨".

(** [getAchievementData] (lines 258-308): [achievements[id] || fallback].
    An inherited property is truthy, so it is returned as it is, and its
    three display properties read as [undefined]. *)
Definition getAchievementData (achievementId : string) : AchievementData :=
  match literal_get achievement_table achievementId with
  | Own data => data
  | Inherited => {| title := None; description := None; icon := None |}
  | Missing => generic_achievement
  end.

(** ** The persisted document *)

(** What [JSON.stringify] leaves of a per-page container.  A [Set] has no
    enumerable own property and is written as the empty object; an array
    of strings (the layout the specification documents) is written as it
    is. *)
Inductive plain :=
| EmptyObject
| StringArray (items : list string).

#[global] Instance plain_eq_dec : EqDecision plain.
Proof. solve_decision. Defined.

(** The object [JSON.parse] returns for a stored snapshot; [None] is a
    property that is missing (or holds [null]). *)
Record document := {
  doc_visitedPages : option (list string);
  doc_completedInteractions : option (gmap string plain);
  doc_unlockedSecrets : option (list string);
  doc_achievements : option (list AchievementRecord);
  doc_collectibles : option (gmap string plain);
  doc_lastVisit : option string
}.

#[global] Instance document_eq_dec : EqDecision document.
Proof. solve_decision. Defined.

(** The string kept under the key ['birthdayProgress'], by what
    [JSON.parse] does with it.  The texts covered are the empty string,
    the texts that do not parse, and the texts that parse to a document
    of the layout [saveProgress] writes; a text that parses to a value of
    another shape ([null], a number where an array is expected) is not
    covered, and nothing below is stated about it. *)
Inductive stored_text :=
| EmptyText                    (* the empty string: falsy *)
| Unparseable (raw : string)   (* JSON.parse throws SyntaxError *)
| Document (d : document).     (* JSON.parse returns [d] *)

#[global] Instance stored_text_eq_dec : EqDecision stored_text.
Proof. solve_decision. Defined.

(** ** The state *)

(** A value of the [completedInteractions] or [collectibles] map: a live
    [Set], or the plain data [loadProgress] put there. *)
Inductive container :=
| LiveSet (members : gset string)
| PlainData (j : plain).

#[global] Instance container_eq_dec : EqDecision container.
Proof. solve_decision. Defined.

Record ProgressTracker := {
  visitedPages : gset string;
  completedInteractions : gmap string container;
  unlockedSecrets : gset string;
  achievements : gmap string AchievementRecord;
  collectibles : gmap string container
}.

Record PageManager := {
  currentPage : string;
  pageHistory : list string;
  pages : gmap string string;       (* page id -> title *)
  progressTracker : ProgressTracker
}.

(** What the presentation layer and the console get to see. *)
Inductive event :=
| ConsoleError (msg : string)
| SetItem (d : document)                       (* localStorage.setItem *)
| ExecuteTransition (from to kind : string)
| ShowAchievementNotification (data : AchievementData)
| Announce (msg : string)
| SetTimeout (callback : string) (delay : nat).

#[global] Instance event_eq_dec : EqDecision event.
Proof. solve_decision. Defined.

Record Browser := {
  localStorage : option stored_text;   (* item 'birthdayProgress' *)
  quota_exceeded : bool;               (* setItem throws *)
  clock : nat → string;                (* ISO time of the n-th reading *)
  ticks : nat;                         (* readings made so far *)
  dom_pages : gset string;             (* ids with a [data-page] element *)
  log : list event
}.

Record world := {
  pm : PageManager;
  konami_buffer : list string;         (* closure variable of setupKonami *)
  env : Browser
}.

(** ** The monad of methods *)

Inductive outcome (A : Type) :=
| Return (a : A) (w : world)
| Throw (e : exn) (w : world).
Arguments Return {A} a w.
Arguments Throw {A} e w.

Definition M (A : Type) : Type := world → outcome A.

#[global] Instance M_ret : MRet M := λ A a w, Return a w.
#[global] Instance M_bind : MBind M := λ A B f m w,
  match m w with
  | Return a w' => f a w'
  | Throw e w' => Throw e w'
  end.

Definition throw {A} (e : exn) : M A := λ w, Throw e w.
Definition gets {A} (f : world → A) : M A := λ w, Return (f w) w.
Definition modify (f : world → world) : M () := λ w, Return () (f w).

(** The world an outcome ends in, whether by return or by throw. *)
Definition final {A} (o : outcome A) : world :=
  match o with Return _ w | Throw _ w => w end.

(** Field updates. *)
Definition with_env (f : Browser → Browser) (w : world) : world :=
  {| pm := pm w; konami_buffer := konami_buffer w; env := f (env w) |}.
Definition with_pm (f : PageManager → PageManager) (w : world) : world :=
  {| pm := f (pm w); konami_buffer := konami_buffer w; env := env w |}.
Definition with_tracker (f : ProgressTracker → ProgressTracker) : world → world :=
  with_pm (λ p, {| currentPage := currentPage p; pageHistory := pageHistory p;
                   pages := pages p; progressTracker := f (progressTracker p) |}).
Definition tracker (w : world) : ProgressTracker := progressTracker (pm w).

Definition emit (e : event) : M () :=
  modify (with_env (λ b,
    {| localStorage := localStorage b; quota_exceeded := quota_exceeded b;
       clock := clock b; ticks := ticks b; dom_pages := dom_pages b;
       log := (log b ++ [e])%list |})).

(** ** Browser primitives *)

Definition localStorage_getItem : M (option stored_text) :=
  gets (λ w, localStorage (env w)).

(** [localStorage.setItem(key, text)]: throws on a full store and leaves
    the item as it was. *)
Definition localStorage_setItem (d : document) : M () :=
  emit (SetItem d);;
  full ← gets (λ w, quota_exceeded (env w));
  if (full : bool) then throw QuotaExceededError
  else modify (with_env (λ b,
    {| localStorage := Some (Document d); quota_exceeded := quota_exceeded b;
       clock := clock b; ticks := ticks b; dom_pages := dom_pages b;
       log := log b |})).

(** [new Date().toISOString()]: reads the clock, which moves on. *)
Definition Date_toISOString : M string :=
  now ← gets (λ w, clock (env w) (ticks (env w)));
  modify (with_env (λ b,
    {| localStorage := localStorage b; quota_exceeded := quota_exceeded b;
       clock := clock b; ticks := S (ticks b); dom_pages := dom_pages b;
       log := log b |}));;
  mret now.

Definition JSON_parse (t : stored_text) : M document :=
  match t with
  | Document d => mret d
  | EmptyText | Unparseable _ => throw SyntaxError
  end.

(** Truthiness of what [getItem] returned: [null] and the empty string are
    falsy. *)
Definition truthy (stored : option stored_text) : bool :=
  match stored with
  | None | Some EmptyText => false
  | Some _ => true
  end.

(** [document.querySelector(`[data-page="${id}"]`)], as the test the code
    makes of it: is there such an element? *)
Definition querySelector_page (pageId : string) : M bool :=
  gets (λ w, bool_decide (pageId ∈ dom_pages (env w))).

(** ** ProgressTracker (lines 2-102) *)

Definition JSON_of_container (c : container) : plain :=
  match c with
  | LiveSet _ => EmptyObject
  | PlainData j => j
  end.

(** [new Map(entries)]: a later entry replaces an earlier one of the same
    key. *)
Definition Map_of_entries {V} (entries : list (string * V)) : gmap string V :=
  foldl (λ m kv, <[kv.1 := kv.2]> m) ∅ entries.

Definition set_visitedPages (s : gset string) : M () :=
  modify (with_tracker (λ t,
    {| visitedPages := s; completedInteractions := completedInteractions t;
       unlockedSecrets := unlockedSecrets t; achievements := achievements t;
       collectibles := collectibles t |})).
Definition set_completedInteractions (m : gmap string container) : M () :=
  modify (with_tracker (λ t,
    {| visitedPages := visitedPages t; completedInteractions := m;
       unlockedSecrets := unlockedSecrets t; achievements := achievements t;
       collectibles := collectibles t |})).
Definition set_unlockedSecrets (s : gset string) : M () :=
  modify (with_tracker (λ t,
    {| visitedPages := visitedPages t;
       completedInteractions := completedInteractions t;
       unlockedSecrets := s; achievements := achievements t;
       collectibles := collectibles t |})).
Definition set_achievements (m : gmap string AchievementRecord) : M () :=
  modify (with_tracker (λ t,
    {| visitedPages := visitedPages t;
       completedInteractions := completedInteractions t;
       unlockedSecrets := unlockedSecrets t; achievements := m;
       collectibles := collectibles t |})).
Definition set_collectibles (m : gmap string container) : M () :=
  modify (with_tracker (λ t,
    {| visitedPages := visitedPages t;
       completedInteractions := completedInteractions t;
       unlockedSecrets := unlockedSecrets t; achievements := achievements t;
       collectibles := m |})).

(** [loadProgress] (lines 12-22). *)
Definition loadProgress : M () :=
  stored ← localStorage_getItem;
  if truthy stored then
    progress ← JSON_parse (default EmptyText stored);
    set_visitedPages (list_to_set (default [] (doc_visitedPages progress)));;
    set_completedInteractions
      (PlainData <$> default ∅ (doc_completedInteractions progress));;
    set_unlockedSecrets (list_to_set (default [] (doc_unlockedSecrets progress)));;
    set_achievements
      (Map_of_entries ((λ a, (a_id a, a)) <$> default [] (doc_achievements progress)));;
    set_collectibles (PlainData <$> default ∅ (doc_collectibles progress))
  else mret ().

(** The object literal built by [saveProgress] (lines 25-32), after
    [JSON.stringify]. *)
Definition snapshot (t : ProgressTracker) (lastVisit : string) : document :=
  {| doc_visitedPages := Some (elements (visitedPages t));
     doc_completedInteractions := Some (JSON_of_container <$> completedInteractions t);
     doc_unlockedSecrets := Some (elements (unlockedSecrets t));
     doc_achievements := Some ((map_to_list (achievements t)).*2);
     doc_collectibles := Some (JSON_of_container <$> collectibles t);
     doc_lastVisit := Some lastVisit |}.

(** [saveProgress] (lines 24-34). *)
Definition saveProgress : M () :=
  t ← gets tracker;
  lastVisit ← Date_toISOString;
  localStorage_setItem (snapshot t lastVisit).

(** [markPageVisited] (lines 36-43). *)
Definition markPageVisited (pageId : string) : M bool :=
  visited ← gets (λ w, visitedPages (tracker w));
  if negb (bool_decide (pageId ∈ visited)) then
    set_visitedPages ({[pageId]} ∪ visited);;
    saveProgress;;
    mret true
  else mret false.

(** The body shared by [markInteractionComplete] and [addCollectible]:
    the two methods differ only in the map they work on.  [c.has] is a
    function only when [c] is a [Set]. *)
Definition add_member (read : ProgressTracker → gmap string container)
    (write : gmap string container → M ())
    (pageId memberId : string) : M bool :=
  m ← gets (λ w, read (tracker w));
  (if negb (bool_decide (is_Some (m !! pageId)))
   then write (<[pageId := LiveSet ∅]> m) else mret ());;
  m ← gets (λ w, read (tracker w));
  match m !! pageId with
  | Some (LiveSet members) =>
      if negb (bool_decide (memberId ∈ members)) then
        write (<[pageId := LiveSet ({[memberId]} ∪ members)]> m);;
        saveProgress;;
        mret true
      else mret false
  | Some (PlainData _) | None => throw TypeError
  end.

(** [markInteractionComplete] (lines 45-57). *)
Definition markInteractionComplete : string → string → M bool :=
  add_member completedInteractions set_completedInteractions.

(** [unlockSecret] (lines 59-66). *)
Definition unlockSecret (secretId : string) : M bool :=
  secrets ← gets (λ w, unlockedSecrets (tracker w));
  if negb (bool_decide (secretId ∈ secrets)) then
    set_unlockedSecrets ({[secretId]} ∪ secrets);;
    saveProgress;;
    mret true
  else mret false.

(** [addCollectible] (lines 68-80). *)
Definition addCollectible : string → string → M bool :=
  add_member collectibles set_collectibles.

(** [Math.round]: the nearest integer, halves upwards.  The quotients
    below are multiples of a quarter, which binary floating point holds
    exactly, so rational arithmetic computes what the doubles do. *)
Definition Math_round (x : Q) : Z := Qfloor (Qplus x (1 # 2)).

Definition validPages : gset string :=
  {[ "gallery"; "reasons"; "wishes"; "games" ]}.

(** [getCompletionPercentage] (lines 82-87). *)
Definition getCompletionPercentage (t : ProgressTracker) : Z :=
  let totalPages := 4%Z in
  let visitedCount :=
    length (filter (λ page, page ∈ validPages) (elements (visitedPages t))) in
  Math_round (Qmult (Qdiv (inject_Z (Z.of_nat visitedCount)) (inject_Z totalPages))
                    (inject_Z 100)).

(** The [completionCriteria] literal (lines 91-96). *)
Definition completionCriteria : list (string * nat) :=
  [ ("gallery", 2); ("reasons", 3); ("wishes", 1); ("games", 1) ].

(** [completionCriteria[pageId] || 1]: a number, or the truthy inherited
    value that no size compares with. *)
Inductive requirement :=
| Count (n : nat)
| NotANumber.

Definition required (pageId : string) : requirement :=
  match literal_get completionCriteria pageId with
  | Own n => if Nat.eqb n 0 then Count 1 else Count n
  | Inherited => NotANumber
  | Missing => Count 1
  end.

(** [size >= required], where [size] is [undefined] for plain data. *)
Definition size_ge (size : option nat) (r : requirement) : bool :=
  match size, r with
  | Some n, Count k => Nat.leb k n
  | _, _ => false
  end.

Definition container_size (c : container) : option nat :=
  match c with
  | LiveSet members => Some (size members)
  | PlainData _ => None
  end.

(** [isPageCompleted] (lines 89-101): [pageInteractions && size >= required];
    every container is truthy, [undefined] is not. *)
Definition isPageCompleted (t : ProgressTracker) (pageId : string) : jsval :=
  match completedInteractions t !! pageId with
  | None => Undefined
  | Some pageInteractions =>
      Boolean (size_ge (container_size pageInteractions) (required pageId))
  end.

(** ** PageManager (lines 105-400) *)

Definition set_currentPage (pageId : string) : M () :=
  modify (with_pm (λ p,
    {| currentPage := pageId; pageHistory := pageHistory p;
       pages := pages p; progressTracker := progressTracker p |})).
Definition set_pageHistory (h : list string) : M () :=
  modify (with_pm (λ p,
    {| currentPage := currentPage p; pageHistory := h;
       pages := pages p; progressTracker := progressTracker p |})).

(** [initializePages] (lines 119-129): the six [pages.set] calls. *)
Definition initializePages : gmap string string :=
  <["games" := "Play Together"]>
  (<["wishes" := "Birthday Wishes"]>
  (<["reasons" := "Amazing You"]>
  (<["gallery" := "Photo Gallery"]>
  (<["menu" := "Main Menu"]>
  (<["landing" := "Welcome"]> ∅))))).

(** [array.pop()]: the last element and the array without it. *)
Definition Array_pop {A} (l : list A) : option (A * list A) :=
  match reverse l with
  | [] => None
  | x :: r => Some (x, reverse r)
  end.

(** [showAchievementNotification] (lines 310-339): DOM only. *)
Definition showAchievementNotification (data : AchievementData) : M () :=
  emit (ShowAchievementNotification data).

(** [unlockAchievement] (lines 243-256).  The method has no [return]
    statement: its value is [undefined] on every path. *)
Definition unlockAchievement (achievementId : string) : M jsval :=
  let achievementData := getAchievementData achievementId in
  unlocked ← gets (λ w, achievements (tracker w));
  (if negb (bool_decide (is_Some (unlocked !! achievementId))) then
     unlockedAt ← Date_toISOString;
     set_achievements
       (<[achievementId :=
            {| a_id := achievementId;
               a_title := title achievementData;
               a_description := description achievementData;
               a_icon := icon achievementData;
               a_unlockedAt := unlockedAt |}]> unlocked);;
     saveProgress;;
     showAchievementNotification achievementData
   else mret ());;
  mret Undefined.

(** [trackProgress] (lines 187-193); [updateMenuProgress] only redraws
    the menu cards. *)
Definition trackProgress (pageId : string) : M () :=
  isFirstVisit ← markPageVisited pageId;
  if isFirstVisit && negb (String.eqb pageId "landing")
                  && negb (String.eqb pageId "menu")
  then unlockAchievement ("first-visit-" +:+ pageId);; mret ()
  else mret ().

(** [navigateTo] as the class defines it (lines 131-152).
    [updateBackButton] only shows or hides a button.  No path returns a
    value. *)
Definition PageManager_navigateTo (pageId transitionType : string) : M jsval :=
  registered ← gets (λ w, pages (pm w));
  if negb (bool_decide (is_Some (registered !! pageId))) then
    emit (ConsoleError ("Page " +:+ pageId +:+ " not found"));;
    mret Undefined
  else
    current ← gets (λ w, currentPage (pm w));
    (if negb (String.eqb current pageId) then
       history ← gets (λ w, pageHistory (pm w));
       set_pageHistory (history ++ [current])%list
     else mret ());;
    currentPageElement ← querySelector_page current;
    targetPageElement ← querySelector_page pageId;
    (if currentPageElement && targetPageElement
     then emit (ExecuteTransition current pageId transitionType)
     else mret ());;
    set_currentPage pageId;;
    trackProgress pageId;;
    mret Undefined.

(** The wrapper of lines 691-797: the original, then timers that start
    the typewriter, reset the wish counters, redraw the game badges or
    the menu. *)
Definition navigateTo_enhanced (pageId transitionType : string) : M jsval :=
  PageManager_navigateTo pageId transitionType;;
  (if String.eqb pageId "wishes"
   then emit (SetTimeout "startTypewriterOnWishesPage" 600) else mret ());;
  (if String.eqb pageId "wishes"
   then emit (SetTimeout "resetWishCounters" 300) else mret ());;
  (if String.eqb pageId "games"
   then emit (SetTimeout "showCompletedGameBadges" 300) else mret ());;
  (if String.eqb pageId "menu"
   then emit (SetTimeout "updateMenuProgress" 300) else mret ());;
  mret Undefined.

(** [pageManager.navigateTo] once the script has loaded: the wrapper of
    [hookAchievementsNav] (lines 2201-2209) around the one above.  This
    is what [this.navigateTo] means inside [goBack] and what the event
    handlers call. *)
Definition navigateTo (pageId transitionType : string) : M jsval :=
  navigateTo_enhanced pageId transitionType;;
  (if String.eqb pageId "achievements"
   then emit (SetTimeout "populateAchievementsGallery" 400) else mret ());;
  mret Undefined.

(** [goBack] (lines 154-159). *)
Definition goBack : M jsval :=
  history ← gets (λ w, pageHistory (pm w));
  (match Array_pop history with
   | Some (previousPage, rest) =>
       set_pageHistory rest;;
       navigateTo previousPage "slideBack";;
       mret ()
   | None => mret ()
   end);;
  mret Undefined.

(** ** The Konami handler (lines 457-469) *)

Definition konami_code : list string :=
  [ "ArrowUp"; "ArrowUp"; "ArrowDown"; "ArrowDown"; "ArrowLeft"; "ArrowRight";
    "ArrowLeft"; "ArrowRight"; "b"; "a" ].

Definition lower_ascii (c : Ascii.ascii) : Ascii.ascii :=
  let n := Ascii.nat_of_ascii c in
  if Nat.leb 65 n && Nat.leb n 90 then Ascii.ascii_of_nat (n + 32) else c.

(** [toLowerCase], on the letters the code can match: ['A'..'Z']. *)
Fixpoint toLowerCase (s : string) : string :=
  match s with
  | String.EmptyString => String.EmptyString
  | String.String c s' => String.String (lower_ascii c) (toLowerCase s')
  end.

(** [code.every((k, i) => buffer[i]?.toLowerCase() === k.toLowerCase())] *)
Fixpoint every_key (code buffer : list string) : bool :=
  match code, buffer with
  | [], _ => true
  | k :: code', b :: buffer' =>
      String.eqb (toLowerCase b) (toLowerCase k) && every_key code' buffer'
  | _ :: _, [] => false
  end.

Definition set_konami_buffer (b : list string) : M () :=
  modify (λ w, {| pm := pm w; konami_buffer := b; env := env w |}).

(** What the handler does once the buffer matches. *)
Definition konami_unlock : M () :=
  emit (Announce "Secret unlocked!");;
  unlockAchievement "secret-explorer";;
  navigateTo "secret" "slide";;
  mret ().

Definition onKeydown (key : string) : M () :=
  buffer ← gets konami_buffer;
  let buffer := (buffer ++ [key])%list in
  let buffer := if Nat.ltb (length konami_code) (length buffer)
                then tail buffer else buffer in
  set_konami_buffer buffer;;
  if every_key konami_code buffer then konami_unlock else mret ().

(** ** Start of the script *)

Definition empty_tracker : ProgressTracker :=
  {| visitedPages := ∅; completedInteractions := ∅; unlockedSecrets := ∅;
     achievements := ∅; collectibles := ∅ |}.

(** [new PageManager()] (lines 106-117, 403), with [new ProgressTracker()]
    (lines 3-10) inside: the fields are set, then [loadProgress] runs, then
    the pages are registered. *)
Definition new_PageManager : M () :=
  modify (with_pm (λ _,
    {| currentPage := "landing"; pageHistory := [];
       pages := ∅; progressTracker := empty_tracker |}));;
  loadProgress;;
  modify (with_pm (λ p,
    {| currentPage := currentPage p; pageHistory := pageHistory p;
       pages := initializePages; progressTracker := progressTracker p |})).

(** The script loaded in a browser [b]. *)
Definition startup (b : Browser) : outcome () :=
  new_PageManager
    {| pm := {| currentPage := "landing"; pageHistory := []; pages := ∅;
                progressTracker := empty_tracker |};
       konami_buffer := [];
       env := b |}.

(** Reloading the page: the script starts again in the browser the
    session leaves behind. *)
Definition reload (w : world) : outcome () := startup (env w).

(** A browser with nothing stored, all six page elements in the DOM, and
    a store that takes writes. *)
Definition fresh_browser : Browser :=
  {| localStorage := None; quota_exceeded := false;
     clock := λ n, "2025-01-01T00:00:0" +:+ pretty n +:+ ".000Z"; ticks := 0;
     dom_pages := {[ "landing"; "menu"; "gallery"; "reasons"; "wishes"; "games" ]};
     log := [] |}.

(** * Worlds and relations used to state the theorems *)

(** ** What a save leaves behind *)

(** The browser after [saveProgress] called [setItem] on tracker [t]:
    the clock was read once and the call is in the log. *)
Definition save_attempted (t : ProgressTracker) (b : Browser) : Browser :=
  {| localStorage := localStorage b; quota_exceeded := quota_exceeded b;
     clock := clock b; ticks := S (ticks b); dom_pages := dom_pages b;
     log := (log b ++ [SetItem (snapshot t (clock b (ticks b)))])%list |}.

(** The browser after the write went through. *)
Definition saved (t : ProgressTracker) (b : Browser) : Browser :=
  {| localStorage := Some (Document (snapshot t (clock b (ticks b))));
     quota_exceeded := quota_exceeded b;
     clock := clock b; ticks := S (ticks b); dom_pages := dom_pages b;
     log := (log b ++ [SetItem (snapshot t (clock b (ticks b)))])%list |}.

(** The tracker after a first visit of [pageId]. *)
Definition visit (pageId : string) (t : ProgressTracker) : ProgressTracker :=
  {| visitedPages := {[pageId]} ∪ visitedPages t;
     completedInteractions := completedInteractions t;
     unlockedSecrets := unlockedSecrets t; achievements := achievements t;
     collectibles := collectibles t |}.

(** The session that starts in [fresh_browser]. *)
Definition session_start : world := final (startup fresh_browser).

(** The specification's formula for the completion percentage:
    [round(100 * |visited ∩ valid| / |valid|)]. *)
Definition completion_formula (visited valid : gset string) : Z :=
  Math_round (Qdiv (Qmult (inject_Z 100)
                          (inject_Z (Z.of_nat (size (visited ∩ valid)))))
                   (inject_Z (Z.of_nat (size valid)))).

(** A tracker that has visited exactly [s]. *)
Definition with_visited (s : gset string) (t : ProgressTracker) : ProgressTracker :=
  {| visitedPages := s; completedInteractions := completedInteractions t;
     unlockedSecrets := unlockedSecrets t; achievements := achievements t;
     collectibles := collectibles t |}.

(** The per-section threshold as the specification words it: gallery 2,
    reasons 3, wishes 1, games 1, any other section 1. *)
Definition threshold (sectionId : string) : nat :=
  if String.eqb sectionId "gallery" then 2
  else if String.eqb sectionId "reasons" then 3
  else 1.

(** The number of distinct interactions recorded for a section: the size
    of its set, and 0 when the tracker holds no set for it. *)
Definition recorded (t : ProgressTracker) (sectionId : string) : nat :=
  match completedInteractions t !! sectionId with
  | Some (LiveSet members) => size members
  | Some (PlainData _) | None => 0
  end.

(** Run [m] in the world an earlier step ended in, whether that step
    returned or threw: an exception ends the handler, not the session. *)
Definition after {A B} (o : outcome A) (m : M B) : outcome B := m (final o).

(** A session with something in every container. *)
Definition busy_session : world :=
  final (after (after (after (after
    (markPageVisited "gallery" session_start)
    (markInteractionComplete "gallery" "photo-1"))
    (unlockSecret "konami"))
    (addCollectible "wishes" "gem-1"))
    (unlockAchievement "candle-blower")).

(** A browser whose stored snapshot is not JSON. *)
Definition corrupt_browser : Browser :=
  {| localStorage := Some (Unparseable "{visitedPages:");
     quota_exceeded := false; clock := clock fresh_browser; ticks := 0;
     dom_pages := dom_pages fresh_browser; log := [] |}.

(** A browser whose store is full. *)
Definition full_browser : Browser :=
  {| localStorage := None; quota_exceeded := true;
     clock := clock fresh_browser; ticks := 0;
     dom_pages := dom_pages fresh_browser; log := [] |}.

(** The record [unlockAchievement] stores for an id unlocked at [stamp]. *)
Definition record_for (achievementId stamp : string) : AchievementRecord :=
  {| a_id := achievementId;
     a_title := title (getAchievementData achievementId);
     a_description := description (getAchievementData achievementId);
     a_icon := icon (getAchievementData achievementId);
     a_unlockedAt := stamp |}.

(** The tracker after that record was stored. *)
Definition unlock (achievementId stamp : string) (t : ProgressTracker) : ProgressTracker :=
  {| visitedPages := visitedPages t;
     completedInteractions := completedInteractions t;
     unlockedSecrets := unlockedSecrets t;
     achievements := <[achievementId := record_for achievementId stamp]> (achievements t);
     collectibles := collectibles t |}.

(** The browser after one reading of the clock. *)
Definition tick (b : Browser) : Browser :=
  {| localStorage := localStorage b; quota_exceeded := quota_exceeded b;
     clock := clock b; ticks := S (ticks b); dom_pages := dom_pages b;
     log := log b |}.

(** The browser with more entries in its log. *)
Definition logged (es : list event) (b : Browser) : Browser :=
  {| localStorage := localStorage b; quota_exceeded := quota_exceeded b;
     clock := clock b; ticks := ticks b; dom_pages := dom_pages b;
     log := (log b ++ es)%list |}.

(** The world after a first, successful [unlockAchievement]. *)
Definition unlocked_world (achievementId : string) (w : world) : world :=
  let t := unlock achievementId (clock (env w) (ticks (env w))) (tracker w) in
  with_env (λ b, logged [ShowAchievementNotification (getAchievementData achievementId)]
                        (saved t (tick b)))
           (with_tracker (λ _, t) w).

(** The timers the two wrappers of [navigateTo] set for a page. *)
Definition hook_timers (pageId : string) : list event :=
  ((if String.eqb pageId "wishes"
    then [SetTimeout "startTypewriterOnWishesPage" 600;
          SetTimeout "resetWishCounters" 300] else []) ++
   (if String.eqb pageId "games"
    then [SetTimeout "showCompletedGameBadges" 300] else []) ++
   (if String.eqb pageId "menu"
    then [SetTimeout "updateMenuProgress" 300] else []) ++
   (if String.eqb pageId "achievements"
    then [SetTimeout "populateAchievementsGallery" 400] else []))%list.

(** What the console shows for an unregistered page. *)
Definition not_found (pageId : string) : event :=
  ConsoleError ("Page " +:+ pageId +:+ " not found").

(** The world [navigateTo] hands to [trackProgress]: the page left is
    pushed on the history unless it is the target, the transition is
    started when both page elements exist, and the target is current. *)
Definition arrive (pageId transitionType : string) (w : world) : world :=
  let current := currentPage (pm w) in
  with_pm (λ p,
    {| currentPage := pageId;
       pageHistory := if String.eqb current pageId then pageHistory p
                      else (pageHistory p ++ [current])%list;
       pages := pages p; progressTracker := progressTracker p |})
    (with_env (logged
       (if bool_decide (current ∈ dom_pages (env w))
           && bool_decide (pageId ∈ dom_pages (env w))
        then [ExecuteTransition current pageId transitionType] else [])) w).

(** The world with another history. *)
Definition with_history (h : list string) : world → world :=
  with_pm (λ p,
    {| currentPage := currentPage p; pageHistory := h;
       pages := pages p; progressTracker := progressTracker p |}).

(** ** Relations between the world before and after a method *)

(** [m], started in [w], ends (by return or by throw) in a world related
    to [w]. *)
Definition preserved_at {A} (R : world → world → Prop) (m : M A) (w : world) : Prop :=
  R w (final (m w)).

Definition preserves {A} (R : world → world → Prop) (m : M A) : Prop :=
  ∀ w, preserved_at R m w.

(** What a method of the tracker leaves alone: the navigation state, the
    key buffer, and the browser's quota, clock function and DOM; the log
    is only extended. *)
Definition tracker_step (w w' : world) : Prop :=
  currentPage (pm w') = currentPage (pm w) ∧
  pageHistory (pm w') = pageHistory (pm w) ∧
  pages (pm w') = pages (pm w) ∧
  konami_buffer w' = konami_buffer w ∧
  quota_exceeded (env w') = quota_exceeded (env w) ∧
  dom_pages (env w') = dom_pages (env w) ∧
  log (env w) `prefix_of` log (env w').

(** What every method leaves alone: the registered pages. *)
Definition same_pages (w w' : world) : Prop :=
  pages (pm w') = pages (pm w).

(** One container against a later one: a set may have gained members;
    plain data is what it was. *)
Definition container_le (c c' : container) : Prop :=
  match c, c' with
  | LiveSet s, LiveSet s' => s ⊆ s'
  | PlainData j, PlainData j' => j = j'
  | _, _ => False
  end.

Definition containers_le (m m' : gmap string container) : Prop :=
  ∀ k c, m !! k = Some c → ∃ c', m' !! k = Some c' ∧ container_le c c'.

(** One-way progress: every member, every per-page member and every
    achievement record of [t] is still there, unaltered, in [t']. *)
Definition progress_le (t t' : ProgressTracker) : Prop :=
  visitedPages t ⊆ visitedPages t' ∧
  containers_le (completedInteractions t) (completedInteractions t') ∧
  unlockedSecrets t ⊆ unlockedSecrets t' ∧
  achievements t ⊆ achievements t' ∧
  containers_le (collectibles t) (collectibles t').

Definition grows (w w' : world) : Prop :=
  progress_le (tracker w) (tracker w').

(** A method of the tracker ran. *)
Definition tracked (w w' : world) : Prop :=
  tracker_step w w' ∧ grows w w'.

(** Any handler of the session ran. *)
Definition session_step (w w' : world) : Prop :=
  same_pages w w' ∧ grows w w'.

(** ** Sessions *)

(** What can happen in a session: a call of a mutation, a navigation, a
    key press, or the store filling up or being emptied by the user. *)
Inductive command :=
| MarkPageVisited (pageId : string)
| MarkInteractionComplete (pageId interactionId : string)
| UnlockSecret (secretId : string)
| AddCollectible (pageId collectibleId : string)
| UnlockAchievement (achievementId : string)
| NavigateTo (pageId transitionType : string)
| GoBack
| Keydown (key : string)
| StoreFull (full : bool).

Definition set_quota (full : bool) : M () :=
  modify (with_env (λ b,
    {| localStorage := localStorage b; quota_exceeded := full;
       clock := clock b; ticks := ticks b; dom_pages := dom_pages b;
       log := log b |})).

Definition call (c : command) : M () :=
  match c with
  | MarkPageVisited pageId => markPageVisited pageId;; mret ()
  | MarkInteractionComplete pageId interactionId =>
      markInteractionComplete pageId interactionId;; mret ()
  | UnlockSecret secretId => unlockSecret secretId;; mret ()
  | AddCollectible pageId collectibleId =>
      addCollectible pageId collectibleId;; mret ()
  | UnlockAchievement achievementId => unlockAchievement achievementId;; mret ()
  | NavigateTo pageId transitionType => navigateTo pageId transitionType;; mret ()
  | GoBack => goBack;; mret ()
  | Keydown key => onKeydown key
  | StoreFull full => set_quota full
  end.

(** The world after the commands ran one after the other; a handler that
    throws ends there, and the session goes on in the world it left. *)
Definition run (cmds : list command) (w : world) : world :=
  foldl (λ w c, final (call c w)) w cmds.

(** The visitor went from landing to gallery and on to wishes. *)
Definition at_wishes : world :=
  final (after (navigateTo "gallery" "slide" session_start)
               (navigateTo "wishes" "slide")).

(** The tracker [loadProgress] builds from a document. *)
Definition loaded (d : document) : ProgressTracker :=
  {| visitedPages := list_to_set (default [] (doc_visitedPages d));
     completedInteractions := PlainData <$> default ∅ (doc_completedInteractions d);
     unlockedSecrets := list_to_set (default [] (doc_unlockedSecrets d));
     achievements :=
       Map_of_entries ((λ a, (a_id a, a)) <$> default [] (doc_achievements d));
     collectibles := PlainData <$> default ∅ (doc_collectibles d) |}.

(** What is left of a tracker once it has been saved and loaded again:
    the sets of pages and secrets and the achievement records, and for
    every per-page container the plain data it was written as. *)
Definition restored (t : ProgressTracker) : ProgressTracker :=
  {| visitedPages := visitedPages t;
     completedInteractions :=
       (λ c, PlainData (JSON_of_container c)) <$> completedInteractions t;
     unlockedSecrets := unlockedSecrets t;
     achievements := achievements t;
     collectibles := (λ c, PlainData (JSON_of_container c)) <$> collectibles t |}.

(** Every achievement record is filed under its own id. *)
Definition keyed_by_id (t : ProgressTracker) : Prop :=
  ∀ k r, achievements t !! k = Some r → a_id r = k.

(** * Callers of the tracker elsewhere in the script *)

(** [ensureDerivedAchievements] (lines 2411-2421). *)
Definition ensureDerivedAchievements : M () :=
  ach ← gets (λ w, achievements (tracker w));
  let hasHearts := bool_decide (is_Some (ach !! "heart-collector")) in
  let hasTokens := bool_decide (is_Some (ach !! "memory-keeper")) in
  let hasStars := bool_decide (is_Some (ach !! "star-collector")) in
  if negb (bool_decide (is_Some (ach !! "collector")))
     && hasHearts && hasTokens && hasStars
  then unlockAchievement "collector";; mret ()
  else mret ().

(** [checkLayerCompletion] (lines 2469-2488); [surprisesUnlocked] is the
    script-level set it reads. *)
Definition checkLayerCompletion (surprisesUnlocked : gset string) : M () :=
  (if bool_decide ("message" ∈ surprisesUnlocked)
      && bool_decide ("photo" ∈ surprisesUnlocked)
   then unlockAchievement "layer-1-complete";; mret () else mret ());;
  (if bool_decide ("password" ∈ surprisesUnlocked)
   then unlockAchievement "layer-2-complete";; mret () else mret ());;
  (if bool_decide ("gesture" ∈ surprisesUnlocked)
   then unlockAchievement "layer-3-complete";; mret () else mret ());;
  (if Nat.leb 7 (size surprisesUnlocked)
   then unlockAchievement "surprise-master";; mret () else mret ()).

(** The number [updateWishesCounter] (lines 1793-1817) writes into the
    counter and compares with 8: the two script-level counters, plus the
    [size] of the collected gems when the tracker holds something for
    [wishes], plus one once the typewriter has finished.  [None] is
    [NaN], which adding the [undefined] size of plain data gives. *)
Definition totalWishes (candlesBlown wishBubblesPopped : nat)
    (typewriterCompleted : bool) (t : ProgressTracker) : option nat :=
  let totalWishes := Some (candlesBlown + wishBubblesPopped)%nat in
  let totalWishes :=
    match collectibles t !! "wishes" with
    | Some collectedGems =>
        n ← totalWishes; k ← container_size collectedGems; Some (n + k)%nat
    | None => totalWishes
    end in
  if typewriterCompleted then n ← totalWishes; Some (n + 1)%nat else totalWishes.

(** [totalWishes >= 8]: whether the timer that unlocks [wish-master] is
    set. *)
Definition wishMasterDue (candlesBlown wishBubblesPopped : nat)
    (typewriterCompleted : bool) (t : ProgressTracker) : bool :=
  match totalWishes candlesBlown wishBubblesPopped typewriterCompleted t with
  | Some n => Nat.leb 8 n
  | None => false
  end.

(** The literal ids the handlers of the script pass to
    [unlockAchievement] (lines 465, 1166, 1242, 1466, 1719, 1814, 2264,
    2337, 2472-2487); line 190 builds [first-visit-...] ids and line 2419
    sits in [ensureDerivedAchievements]. *)
Definition script_achievement_ids : list string :=
  [ "secret-explorer"; "word-finder"; "memory-keeper"; "game-master";
    "candle-blower"; "wish-master"; "password-cracker"; "heart-drawer";
    "layer-1-complete"; "layer-2-complete"; "layer-3-complete";
    "surprise-master" ].

(** What the script does in a session: a command, with the ids its own
    handlers use, or one of the two checks above. *)
Inductive script_step :=
| Command (c : command)
| EnsureDerived
| CheckLayers (surprisesUnlocked : gset string).

Definition from_script (s : script_step) : Prop :=
  match s with
  | Command (UnlockAchievement achievementId) =>
      achievementId ∈ script_achievement_ids
  | _ => True
  end.

Definition perform (s : script_step) : M () :=
  match s with
  | Command c => call c
  | EnsureDerived => ensureDerivedAchievements
  | CheckLayers surprisesUnlocked => checkLayerCompletion surprisesUnlocked
  end.

Definition play (steps : list script_step) (w : world) : world :=
  foldl (λ w s, final (perform s w)) w steps.

(** ** More worlds and relations *)

(** The navigation state is sound: the six pages are registered, the
    current page and every history entry is one of them, and the last
    history entry is not the current page. *)
Definition nav_ok (w : world) : Prop :=
  pages (pm w) = initializePages ∧
  is_Some (initializePages !! currentPage (pm w)) ∧
  Forall (λ p, is_Some (initializePages !! p)) (pageHistory (pm w)) ∧
  last (pageHistory (pm w)) ≠ Some (currentPage (pm w)).

(** The keys pressed among the commands. *)
Definition keys_of (cmds : list command) : list string :=
  omap (λ c, match c with Keydown key => Some key | _ => None end) cmds.

(** The key buffer of [setupKonami] after another key (lines 461-462). *)
Definition push_key (buffer : list string) (key : string) : list string :=
  let buffer := (buffer ++ [key])%list in
  if Nat.ltb (length konami_code) (length buffer) then tail buffer else buffer.

(** The last ten elements. *)
Definition last10 {A} (l : list A) : list A := drop (length l - 10) l.

(** The achievements are what they were. *)
Definition ach_same (w w' : world) : Prop :=
  achievements (tracker w') = achievements (tracker w).

(** Every record of [w'] was already in [w], or was filed under its own
    id, which is one of [P]. *)
Definition unlocks (P : string → Prop) (w w' : world) : Prop :=
  ∀ k r, achievements (tracker w') !! k = Some r →
         achievements (tracker w) !! k = Some r ∨ (P k ∧ a_id r = k).

(** The achievements under the ids of [K] are what they were. *)
Definition untouched (K : string → Prop) (w w' : world) : Prop :=
  ∀ k, K k → achievements (tracker w') !! k = achievements (tracker w) !! k.

(** The members a per-page map holds for a page: those of its set, none
    when there is no set. *)
Definition members_of (m : gmap string container) (pageId : string) : gset string :=
  match m !! pageId with
  | Some (LiveSet members) => members
  | Some (PlainData _) | None => ∅
  end.

(** A tracker with other interactions, or other collectibles. *)
Definition with_interactions (m : gmap string container) (t : ProgressTracker)
    : ProgressTracker :=
  {| visitedPages := visitedPages t; completedInteractions := m;
     unlockedSecrets := unlockedSecrets t; achievements := achievements t;
     collectibles := collectibles t |}.

Definition with_collectibles (m : gmap string container) (t : ProgressTracker)
    : ProgressTracker :=
  {| visitedPages := visitedPages t;
     completedInteractions := completedInteractions t;
     unlockedSecrets := unlockedSecrets t; achievements := achievements t;
     collectibles := m |}.

(** The id of the achievement of a first visit (line 190). *)
Definition first_visit (pageId : string) : string := "first-visit-" +:+ pageId.

(** The ids that the metadata table of [getAchievementData] (lines
    284-300) or [ensureDerivedAchievements] (lines 2415-2417) name, and
    that no call of [unlockAchievement] in the script passes. *)
Definition never_unlocked : list string :=
  [ "explorer"; "surprise-message"; "surprise-photo"; "surprise-wish";
    "heart-collector"; "star-collector" ].

(** Nothing happened under the ids nobody unlocks, nor under [collector]
    when one of the two achievements it is derived from was missing. *)
Definition dormant (w w' : world) : Prop :=
  untouched (λ k, k ∈ never_unlocked) w w' ∧
  (achievements (tracker w) !! "heart-collector" = None ∨
   achievements (tracker w) !! "star-collector" = None →
   achievements (tracker w') !! "collector"
   = achievements (tracker w) !! "collector").

(** Once [pageId] is among the visited pages it stays there, and what is
    filed under its first-visit achievement stays as it is. *)
Definition visit_settled (pageId : string) (w w' : world) : Prop :=
  pageId ∈ visitedPages (tracker w) →
  pageId ∈ visitedPages (tracker w') ∧
  achievements (tracker w') !! first_visit pageId
  = achievements (tracker w) !! first_visit pageId.

(** Does [trackProgress] store a first-visit achievement for [pageId]
    (lines 188-189 and 245)? *)
Definition first_visit_due (pageId : string) (t : ProgressTracker) : bool :=
  negb (bool_decide (pageId ∈ visitedPages t))
  && negb (String.eqb pageId "landing") && negb (String.eqb pageId "menu")
  && negb (bool_decide (is_Some (achievements t !! first_visit pageId))).

(** What [trackProgress] adds to the log while the store takes writes:
    the write of a first visit, then the write and the notification of
    the first-visit achievement when it is due. *)
Definition trackProgress_events (pageId : string) (w : world) : list event :=
  let b := env w in
  let t1 := visit pageId (tracker w) in
  let t2 := unlock (first_visit pageId) (clock b (S (ticks b))) t1 in
  ((if bool_decide (pageId ∈ visitedPages (tracker w)) then []
    else [SetItem (snapshot t1 (clock b (ticks b)))]) ++
   (if first_visit_due pageId (tracker w)
    then [SetItem (snapshot t2 (clock b (S (S (ticks b)))));
          ShowAchievementNotification (getAchievementData (first_visit pageId))]
    else []))%list.

(** What a navigation to a registered page adds to the log while the
    store takes writes: the transition when both page elements exist,
    what [trackProgress] adds, and the timers of the wrappers. *)
Definition navigateTo_events (pageId transitionType : string) (w : world) : list event :=
  ((if bool_decide (currentPage (pm w) ∈ dom_pages (env w))
       && bool_decide (pageId ∈ dom_pages (env w))
    then [ExecuteTransition (currentPage (pm w)) pageId transitionType] else []) ++
   trackProgress_events pageId w ++
   hook_timers pageId)%list.

(** * Reasoning about methods *)

(** Controlled unfolding of the monad and of the field accessors: the
    operations of [gset] and [gmap] stay folded. *)
Ltac unfold_M :=
  cbv beta iota zeta delta
    [ mbind M_bind mret M_ret gets modify throw emit final
      with_env with_pm with_tracker tracker
      pm konami_buffer env
      currentPage pageHistory pages progressTracker
      visitedPages completedInteractions unlockedSecrets achievements collectibles
      localStorage quota_exceeded clock ticks dom_pages log
      localStorage_getItem localStorage_setItem Date_toISOString
      querySelector_page showAchievementNotification
      set_visitedPages set_completedInteractions set_unlockedSecrets
      set_achievements set_collectibles set_currentPage set_pageHistory
      set_konami_buffer ].

Lemma bind_Return {A B} (m : M A) (f : A → M B) w a w' :
  m w = Return a w' → (m ≫= f) w = f a w'.
Proof. intros H. unfold mbind, M_bind. by rewrite H. Qed.

Lemma bind_Throw {A B} (m : M A) (f : A → M B) w e w' :
  m w = Throw e w' → (m ≫= f) w = Throw e w'.
Proof. intros H. unfold mbind, M_bind. by rewrite H. Qed.

Lemma final_bind {A B} (m : M A) (f : A → M B) w :
  final ((m ≫= f) w) =
  match m w with
  | Return a w' => final (f a w')
  | Throw _ w' => w'
  end.
Proof. unfold mbind, M_bind. by destruct (m w). Qed.

Lemma saveProgress_eq w :
  saveProgress w =
  if quota_exceeded (env w)
  then Throw QuotaExceededError (with_env (save_attempted (tracker w)) w)
  else Return () (with_env (saved (tracker w)) w).
Proof.
  destruct w as [p kb b]. unfold saveProgress. unfold_M.
  by destruct b as [? [] ? ? ? ?].
Qed.

Lemma saveProgress_ok w :
  quota_exceeded (env w) = false →
  saveProgress w = Return () (with_env (saved (tracker w)) w).
Proof. intros H. by rewrite saveProgress_eq, H. Qed.

Lemma saveProgress_full w :
  quota_exceeded (env w) = true →
  saveProgress w = Throw QuotaExceededError (with_env (save_attempted (tracker w)) w).
Proof. intros H. by rewrite saveProgress_eq, H. Qed.

(** ** [markPageVisited] *)

Lemma markPageVisited_present w pageId :
  pageId ∈ visitedPages (tracker w) →
  markPageVisited pageId w = Return false w.
Proof.
  intros H. unfold markPageVisited.
  erewrite bind_Return; [|reflexivity].
  by rewrite bool_decide_eq_true_2.
Qed.

Lemma markPageVisited_fresh w pageId :
  pageId ∉ visitedPages (tracker w) →
  markPageVisited pageId w =
  (saveProgress;; mret true) (with_tracker (visit pageId) w).
Proof.
  intros H. unfold markPageVisited.
  erewrite bind_Return; [|reflexivity].
  rewrite bool_decide_eq_false_2 by done. cbn [negb].
  erewrite bind_Return; [reflexivity|].
  by destruct w as [[? ? ? []] ? ?].
Qed.

Lemma filter_eq_NoDup_length (l : list string) (x : string) :
  NoDup l → x ∈ l → length (filter (λ y, y = x) l) = 1.
Proof.
  induction 1 as [|y l Hy Hl IH]; [by intros ?%elem_of_nil|].
  intros [<-|Hx]%elem_of_cons.
  - rewrite filter_cons_True by done.
    destruct (filter (λ y, y = x) l) as [|z r] eqn:E; [done|].
    assert (z ∈ filter (λ y, y = x) l) as [-> Hz]%list_elem_of_filter
      by (rewrite E; left).
    done.
  - rewrite filter_cons_False; [by apply IH|]. intros ->. done.
Qed.

(** C5 (amended): [markPageVisited x], called twice from a state in which
    [x] has not been visited and with a store that takes the write, returns
    [true] and
    then [false]; afterwards the set of visited pages is the old one plus
    [x], it is one larger, [x] occurs exactly once in its enumeration, and
    the only [setItem] call is the one made by the first call: the second
    call returns in the very world it started in. *)
Theorem markPageVisited_idempotent (w : world) (x : string) :
  x ∉ visitedPages (tracker w) →
  quota_exceeded (env w) = false →
  ∃ w1,
    markPageVisited x w = Return true w1 ∧
    markPageVisited x w1 = Return false w1 ∧
    visitedPages (tracker w1) = {[x]} ∪ visitedPages (tracker w) ∧
    size (visitedPages (tracker w1)) = S (size (visitedPages (tracker w))) ∧
    length (filter (λ y, y = x) (elements (visitedPages (tracker w1)))) = 1 ∧
    env w1 = saved (visit x (tracker w)) (env w).
Proof.
  intros Hx Hq.
  exists (with_env (saved (visit x (tracker w))) (with_tracker (visit x) w)).
  assert (Hin : x ∈ ({[x]} ∪ visitedPages (tracker w) : gset string))
    by set_solver.
  split_and!.
  - rewrite markPageVisited_fresh by done.
    erewrite bind_Return; [|by apply saveProgress_ok]. done.
  - by apply markPageVisited_present.
  - done.
  - change (size ({[x]} ∪ visitedPages (tracker w)) = S (size (visitedPages (tracker w)))).
    rewrite size_union by set_solver. by rewrite size_singleton.
  - apply filter_eq_NoDup_length; [apply NoDup_elements|].
    by apply elem_of_elements.
  - done.
Qed.

Lemma markPageVisited_idempotent_witness :
  ("gallery" ∉ visitedPages (tracker session_start)) ∧
  (quota_exceeded (env session_start) = false) ∧
  ∃ w1,
    markPageVisited "gallery" session_start = Return true w1 ∧
    markPageVisited "gallery" w1 = Return false w1 ∧
    visitedPages (tracker w1) = {["gallery"]} ∪ visitedPages (tracker session_start) ∧
    size (visitedPages (tracker w1)) = S (size (visitedPages (tracker session_start))) ∧
    length (filter (λ y, y = "gallery") (elements (visitedPages (tracker w1)))) = 1 ∧
    env w1 = saved (visit "gallery" (tracker session_start)) (env session_start).
Proof.
  assert (H1 : "gallery" ∉ visitedPages (tracker session_start)) by compute_done.
  assert (H2 : quota_exceeded (env session_start) = false) by reflexivity.
  split_and!; [exact H1 | exact H2 |].
  exact (markPageVisited_idempotent session_start "gallery" H1 H2).
Defined.

(** C5 (counterexample): from a state whose store is full, the first
    [markPageVisited] of a page that has not been visited does not return
    [true]: it adds the page, asks for the write and lets the store's
    [QuotaExceededError] through; the second call returns [false]. *)
Lemma markPageVisited_full_store :
  let w := final (startup full_browser) in
  let w1 := final (markPageVisited "gallery" w) in
  ("gallery" ∉ visitedPages (tracker w)) ∧
  quota_exceeded (env w) = true ∧
  markPageVisited "gallery" w = Throw QuotaExceededError w1 ∧
  "gallery" ∈ visitedPages (tracker w1) ∧
  markPageVisited "gallery" w1 = Return false w1.
Proof. cbv zeta. split_and!; by vm_compute. Qed.

(** ** [getCompletionPercentage] *)

Lemma visitedCount_size (X Y : gset string) :
  length (filter (λ page, page ∈ Y) (elements X)) = size (X ∩ Y).
Proof.
  unfold size, set_size. simpl. apply Permutation_length.
  apply NoDup_Permutation.
  - apply NoDup_filter, NoDup_elements.
  - apply NoDup_elements.
  - intros x.
    rewrite list_elem_of_filter, !elem_of_elements, elem_of_intersection.
    tauto.
Qed.

Lemma size_validPages : size validPages = 4.
Proof. reflexivity. Qed.

Lemma valid_visited_le (X : gset string) : (size (X ∩ validPages) ≤ 4)%nat.
Proof.
  rewrite <- size_validPages. apply subseteq_size.
  apply intersection_subseteq_r.
Qed.

Lemma percentage_quarters (c : nat) :
  (c ≤ 4)%nat →
  Math_round (Qmult (Qdiv (inject_Z (Z.of_nat c)) (inject_Z 4)) (inject_Z 100))
  = (25 * Z.of_nat c)%Z.
Proof.
  intros Hc.
  destruct c as [|[|[|[|[|c]]]]]; [reflexivity..|lia].
Qed.

Lemma formula_quarters (c : nat) :
  (c ≤ 4)%nat →
  Math_round (Qdiv (Qmult (inject_Z 100) (inject_Z (Z.of_nat c)))
                   (inject_Z (Z.of_nat 4)))
  = (25 * Z.of_nat c)%Z.
Proof.
  intros Hc.
  destruct c as [|[|[|[|[|c]]]]]; [reflexivity..|lia].
Qed.

Lemma getCompletionPercentage_quarters (t : ProgressTracker) :
  getCompletionPercentage t
  = (25 * Z.of_nat (size (visitedPages t ∩ validPages)))%Z.
Proof.
  unfold getCompletionPercentage. cbv zeta.
  rewrite visitedCount_size. apply percentage_quarters, valid_visited_le.
Qed.

(** C6: [getCompletionPercentage] is a function of the tracker alone and
    equals the specification's formula
    [round(100 * |visitedPages ∩ validPages| / 4)]; it is an integer between
    0 and 100; it is 50 when exactly gallery and wishes were visited, 100
    when the four primary pages were, 0 when only landing and menu were;
    and pages outside the four primary ones (landing, menu, secret,
    achievements or any other) never change it. *)
Theorem getCompletionPercentage_spec (t : ProgressTracker) :
  getCompletionPercentage t = completion_formula (visitedPages t) validPages ∧
  (0 ≤ getCompletionPercentage t ≤ 100)%Z ∧
  getCompletionPercentage (with_visited {[ "gallery"; "wishes" ]} t) = 50%Z ∧
  getCompletionPercentage
    (with_visited {[ "gallery"; "reasons"; "wishes"; "games" ]} t) = 100%Z ∧
  getCompletionPercentage (with_visited {[ "landing"; "menu" ]} t) = 0%Z ∧
  (∀ others : gset string,
     getCompletionPercentage
       (with_visited (visitedPages t ∪ others ∖ validPages) t)
     = getCompletionPercentage t) ∧
  getCompletionPercentage
    (with_visited
       (visitedPages t ∪ {[ "landing"; "menu"; "secret"; "achievements" ]}) t)
  = getCompletionPercentage t.
Proof.
  pose proof (valid_visited_le (visitedPages t)) as Hle.
  split_and!.
  - rewrite getCompletionPercentage_quarters. unfold completion_formula.
    rewrite size_validPages. symmetry. by apply formula_quarters.
  - rewrite getCompletionPercentage_quarters. lia.
  - rewrite getCompletionPercentage_quarters. lia.
  - rewrite getCompletionPercentage_quarters. reflexivity.
  - rewrite getCompletionPercentage_quarters. reflexivity.
  - rewrite getCompletionPercentage_quarters. reflexivity.
  - intros others. rewrite !getCompletionPercentage_quarters.
    change (visitedPages (with_visited ?s t)) with s.
    by replace ((visitedPages t ∪ others ∖ validPages) ∩ validPages)
      with (visitedPages t ∩ validPages) by set_solver.
  - rewrite !getCompletionPercentage_quarters.
    change (visitedPages (with_visited ?s t)) with s.
    assert (({[ "landing"; "menu"; "secret"; "achievements" ]} : gset string)
            ∩ validPages = ∅) as Hd by compute_done.
    by replace ((visitedPages t ∪ {[ "landing"; "menu"; "secret"; "achievements" ]})
                ∩ validPages)
      with (visitedPages t ∩ validPages) by set_solver.
Qed.

(** ** [isPageCompleted] *)

Lemma literal_get_not_inherited {A} (own : list (string * A)) name :
  inherited name = false →
  literal_get own name =
  match (list_to_map own : gmap string A) !! name with
  | Some a => Own a
  | None => Missing
  end.
Proof. intros H. unfold literal_get. by rewrite H. Qed.

Lemma required_threshold (pageId : string) :
  inherited pageId = false → required pageId = Count (threshold pageId).
Proof.
  intros H. unfold required, threshold.
  rewrite literal_get_not_inherited by done.
  unfold completionCriteria. simpl list_to_map.
  destruct (String.eqb_spec pageId "gallery") as [->|Hg]; [done|].
  destruct (String.eqb_spec pageId "reasons") as [->|Hr]; [done|].
  destruct (String.eqb_spec pageId "wishes") as [->|Hw]; [done|].
  destruct (String.eqb_spec pageId "games") as [->|Hm]; [done|].
  by rewrite !lookup_insert_ne, lookup_empty by done.
Qed.

(** X1: for a section whose name is not one that object literals inherit,
    [isPageCompleted] is [true] exactly when the recorded interactions
    reach the threshold, and is falsy ([false] or [undefined]) otherwise;
    without any recorded interaction it is [undefined]. *)
Lemma isPageCompleted_threshold (t : ProgressTracker) (pageId : string) :
  inherited pageId = false →
  (isPageCompleted t pageId = Boolean true ↔
   (threshold pageId ≤ recorded t pageId)%nat) ∧
  (isPageCompleted t pageId = Boolean true ∨
   isPageCompleted t pageId = Boolean false ∨
   isPageCompleted t pageId = Undefined) ∧
  (completedInteractions t !! pageId = None → isPageCompleted t pageId = Undefined).
Proof.
  intros H. unfold isPageCompleted, recorded.
  rewrite required_threshold by done.
  assert (0 < threshold pageId)%nat as Hpos.
  { unfold threshold. repeat case_match; lia. }
  destruct (completedInteractions t !! pageId) as [[members|j]|]; simpl.
  - split_and!; [|destruct (Nat.leb_spec (threshold pageId) (size members)); auto|done].
    split.
    + intros [= Hle]. by apply Nat.leb_le.
    + intros Hle. f_equal. by apply Nat.leb_le.
  - split_and!; [|auto|done]. split; [done|lia].
  - split_and!; [|auto|done]. split; [done|lia].
Qed.

(** A section named as a property object literals inherit: one interaction
    is recorded for [constructor], whose threshold would be 1, and
    [isPageCompleted] answers [false]: [completionCriteria[pageId]] finds
    the inherited [Object.prototype.constructor], which is truthy, so the
    [|| 1] default is not taken and the size is compared with a function.
    No caller in the script passes such a name. *)
Lemma isPageCompleted_inherited_name :
  let w := final (markInteractionComplete "constructor" "tap" session_start) in
  markInteractionComplete "constructor" "tap" session_start = Return true w ∧
  recorded (tracker w) "constructor" = 1 ∧
  threshold "constructor" = 1 ∧
  isPageCompleted (tracker w) "constructor" = Boolean false.
Proof. cbv zeta. split_and!; by vm_compute. Qed.


(** The threshold example of the specification, in a fresh session: two
    distinct interactions of [reasons] do not complete it, a third does,
    and recording the third again changes nothing. *)
Lemma isPageCompleted_reasons_example :
  let w2 := final (after (markInteractionComplete "reasons" "reason-1" session_start)
                         (markInteractionComplete "reasons" "reason-2")) in
  let w3 := final (markInteractionComplete "reasons" "reason-3" w2) in
  isPageCompleted (tracker session_start) "reasons" = Undefined ∧
  isPageCompleted (tracker w2) "reasons" = Boolean false ∧
  isPageCompleted (tracker w3) "reasons" = Boolean true ∧
  markInteractionComplete "reasons" "reason-3" w3 = Return false w3.
Proof. cbv zeta. split_and!; by vm_compute. Qed.

(** ** Persistence *)

(** C2 (failing input): in a session with something in every container,
    [saveProgress] followed by [loadProgress] restores the visited pages,
    the secrets and the achievement records, but not the per-page sets:
    the interactions of [gallery] and the collectibles of [wishes] were
    written as the empty object, come back as plain data without their
    members, and the next [markInteractionComplete] on that page throws a
    [TypeError]. *)
Theorem save_load_loses_page_sets :
  let w := busy_session in
  let w' := final ((saveProgress;; loadProgress) w) in
  (saveProgress;; loadProgress) w = Return () w' ∧
  visitedPages (tracker w') = visitedPages (tracker w) ∧
  unlockedSecrets (tracker w') = unlockedSecrets (tracker w) ∧
  achievements (tracker w') = achievements (tracker w) ∧
  completedInteractions (tracker w) !! "gallery" = Some (LiveSet {[ "photo-1" ]}) ∧
  completedInteractions (tracker w') !! "gallery" = Some (PlainData EmptyObject) ∧
  collectibles (tracker w) !! "wishes" = Some (LiveSet {[ "gem-1" ]}) ∧
  collectibles (tracker w') !! "wishes" = Some (PlainData EmptyObject) ∧
  markInteractionComplete "gallery" "photo-2" w' = Throw TypeError w'.
Proof. cbv zeta. split_and!; by vm_compute. Qed.

(** C8 (failing input): the interaction recorded for [reasons] is a member
    of its set until the page is reloaded; the reloaded tracker holds the
    empty object for [reasons], so the count of recorded interactions
    falls from 1 to 0, and recording the same interaction again throws. *)
Theorem reload_drops_interactions :
  let w1 := final (markInteractionComplete "reasons" "reason-1" session_start) in
  let w2 := final (reload w1) in
  markInteractionComplete "reasons" "reason-1" session_start = Return true w1 ∧
  reload w1 = Return () w2 ∧
  completedInteractions (tracker w1) !! "reasons" = Some (LiveSet {[ "reason-1" ]}) ∧
  recorded (tracker w1) "reasons" = 1 ∧
  completedInteractions (tracker w2) !! "reasons" = Some (PlainData EmptyObject) ∧
  recorded (tracker w2) "reasons" = 0 ∧
  markInteractionComplete "reasons" "reason-1" w2 = Throw TypeError w2.
Proof. cbv zeta. split_and!; by vm_compute. Qed.

(** C3 (counterexample): with a stored snapshot that is not JSON the
    constructor does not return: the [SyntaxError] of [JSON.parse] reaches
    its caller; and with a full store [markPageVisited] does not return
    either, [saveProgress] lets the [QuotaExceededError] through. *)
Lemma store_adapter_throws :
  (∃ w, startup corrupt_browser = Throw SyntaxError w) ∧
  (∃ w, saveProgress (final (startup full_browser)) = Throw QuotaExceededError w) ∧
  (∃ w, markPageVisited "gallery" (final (startup full_browser))
        = Throw QuotaExceededError w).
Proof. split_and!; eexists; by vm_compute. Qed.

Lemma startup_nothing_stored (b : Browser) :
  truthy (localStorage b) = false →
  startup b =
  Return () {| pm := {| currentPage := "landing"; pageHistory := [];
                        pages := initializePages;
                        progressTracker := empty_tracker |};
               konami_buffer := []; env := b |}.
Proof.
  destruct b as [stored q c k d l]. simpl. intros H.
  unfold startup, new_PageManager, loadProgress. unfold_M.
  by rewrite H.
Qed.

(** C3 (amended): [loadProgress] on an absent or empty snapshot leaves the
    fresh empty tracker and does not throw; on a snapshot that does not
    parse, the [SyntaxError] reaches the caller of the constructor.
    [saveProgress] writes the snapshot when the store takes it; when the
    store is full its [QuotaExceededError] reaches the caller, and the
    mutation that asked for the save ([markPageVisited] here) has already
    been made in memory. *)
Theorem store_adapter_failure_modes (b : Browser) (w : world) (x : string) :
  (truthy (localStorage b) = false →
     ∃ w0, startup b = Return () w0 ∧ tracker w0 = empty_tracker ∧ env w0 = b) ∧
  (∀ raw, localStorage b = Some (Unparseable raw) →
     ∃ w0, startup b = Throw SyntaxError w0) ∧
  (quota_exceeded (env w) = false →
     saveProgress w = Return () (with_env (saved (tracker w)) w)) ∧
  (quota_exceeded (env w) = true →
     saveProgress w
     = Throw QuotaExceededError (with_env (save_attempted (tracker w)) w)) ∧
  (quota_exceeded (env w) = true → x ∉ visitedPages (tracker w) →
     ∃ w', markPageVisited x w = Throw QuotaExceededError w' ∧
           x ∈ visitedPages (tracker w') ∧
           localStorage (env w') = localStorage (env w)).
Proof.
  split_and!.
  - intros H. eexists. split; [by apply startup_nothing_stored|done].
  - destruct b as [stored q c k d l]. simpl. intros raw ->.
    unfold startup, new_PageManager, loadProgress. unfold_M.
    simpl. by eexists.
  - apply saveProgress_ok.
  - apply saveProgress_full.
  - intros Hq Hx. rewrite markPageVisited_fresh by done.
    eexists. split.
    + erewrite bind_Throw; [done|]. by apply saveProgress_full.
    + split; [|done].
      change (x ∈ ({[x]} ∪ visitedPages (tracker w) : gset string)).
      apply elem_of_union_l, elem_of_singleton. done.
Qed.

Lemma store_adapter_failure_modes_witness :
  (∃ w0, startup fresh_browser = Return () w0 ∧ tracker w0 = empty_tracker ∧
         env w0 = fresh_browser) ∧
  (∃ w0, startup corrupt_browser = Throw SyntaxError w0) ∧
  saveProgress session_start
  = Return () (with_env (saved (tracker session_start)) session_start) ∧
  (∃ w', markPageVisited "gallery" (final (startup full_browser))
         = Throw QuotaExceededError w' ∧
         "gallery" ∈ visitedPages (tracker w') ∧
         localStorage (env w') = localStorage (env (final (startup full_browser)))).
Proof.
  split_and!.
  - exact (proj1 (store_adapter_failure_modes fresh_browser session_start "gallery")
             eq_refl).
  - exact (proj1 (proj2 (store_adapter_failure_modes corrupt_browser session_start "gallery"))
             "{visitedPages:" eq_refl).
  - exact (proj1 (proj2 (proj2
             (store_adapter_failure_modes fresh_browser session_start "gallery")))
             eq_refl).
  - refine (proj2 (proj2 (proj2 (proj2
             (store_adapter_failure_modes fresh_browser (final (startup full_browser))
                "gallery")))) eq_refl _).
    compute_done.
Defined.

(** ** [unlockAchievement] *)

Lemma unlockAchievement_present w achievementId :
  is_Some (achievements (tracker w) !! achievementId) →
  unlockAchievement achievementId w = Return Undefined w.
Proof.
  intros H. unfold unlockAchievement. cbv zeta.
  erewrite bind_Return; [|reflexivity].
  erewrite bind_Return; [reflexivity|].
  by rewrite bool_decide_eq_true_2.
Qed.

Lemma unlockAchievement_fresh w achievementId :
  achievements (tracker w) !! achievementId = None →
  quota_exceeded (env w) = false →
  unlockAchievement achievementId w = Return Undefined (unlocked_world achievementId w).
Proof.
  intros H Hq. unfold unlockAchievement. cbv zeta.
  erewrite bind_Return; [|reflexivity].
  erewrite bind_Return; [reflexivity|].
  rewrite bool_decide_eq_false_2 by (rewrite H; by intros [? ?]).
  cbn [negb].
  erewrite bind_Return; [|reflexivity].
  erewrite bind_Return; [|reflexivity].
  erewrite bind_Return; [|apply saveProgress_ok; by destruct w as [[? ? ? []] ? []]].
  by destruct w as [[? ? ? []] ? []].
Qed.

Lemma getAchievementData_own achievementId data :
  (list_to_map achievement_table : gmap string AchievementData) !! achievementId
  = Some data →
  getAchievementData achievementId = data.
Proof. intros H. unfold getAchievementData, literal_get. by rewrite H. Qed.

Lemma getAchievementData_unknown achievementId :
  (list_to_map achievement_table : gmap string AchievementData) !! achievementId
  = None →
  inherited achievementId = false →
  getAchievementData achievementId = generic_achievement.
Proof. intros H Hi. unfold getAchievementData, literal_get. by rewrite H, Hi. Qed.

(** C4 (counterexample): the first [unlockAchievement('candle-blower')]
    stores a record but returns [undefined], not the record, and the
    second call returns [undefined] as well, not [null]: the return value
    does not tell a new unlock from a repeated one. *)
Lemma unlockAchievement_returns_undefined :
  ∃ w1 r,
    unlockAchievement "candle-blower" session_start = Return Undefined w1 ∧
    achievements (tracker w1) !! "candle-blower" = Some r ∧
    Undefined ≠ Achievement r ∧
    unlockAchievement "candle-blower" w1 = Return Undefined w1 ∧
    Undefined ≠ Null.
Proof.
  exists (unlocked_world "candle-blower" session_start).
  eexists. split_and!; [by vm_compute | by vm_compute | done | by vm_compute | done].
Qed.

(** C4 (amended): for an id that is not unlocked yet, and a store that
    takes the write, the first [unlockAchievement] inserts exactly one
    record, stamped with the time read from the clock and carrying the
    metadata of [getAchievementData] (the table entry of the id; the
    generic "Achievement Unlocked" data for an id that is neither in the
    table nor a name inherited from [Object.prototype]); it persists the
    snapshot that holds the record, shows the notification and returns
    [undefined].  A later call with the same id returns [undefined] in the
    world it started in: nothing is written, shown or altered. *)
Theorem unlockAchievement_once (w : world) (achievementId : string) :
  achievements (tracker w) !! achievementId = None →
  quota_exceeded (env w) = false →
  ∃ w1,
    unlockAchievement achievementId w = Return Undefined w1 ∧
    achievements (tracker w1)
    = <[achievementId := record_for achievementId (clock (env w) (ticks (env w)))]>
        (achievements (tracker w)) ∧
    size (achievements (tracker w1)) = S (size (achievements (tracker w))) ∧
    localStorage (env w1)
    = Some (Document (snapshot (tracker w1) (clock (env w) (S (ticks (env w)))))) ∧
    log (env w1)
    = (log (env w) ++
       [ SetItem (snapshot (tracker w1) (clock (env w) (S (ticks (env w)))));
         ShowAchievementNotification (getAchievementData achievementId) ])%list ∧
    unlockAchievement achievementId w1 = Return Undefined w1 ∧
    (∀ data,
       (list_to_map achievement_table : gmap string AchievementData) !! achievementId
       = Some data → getAchievementData achievementId = data) ∧
    ((list_to_map achievement_table : gmap string AchievementData) !! achievementId
     = None → inherited achievementId = false →
     getAchievementData achievementId = generic_achievement).
Proof.
  intros H Hq. exists (unlocked_world achievementId w).
  split_and!.
  - by apply unlockAchievement_fresh.
  - by destruct w as [[? ? ? []] ? []].
  - transitivity (size (<[achievementId :=
        record_for achievementId (clock (env w) (ticks (env w)))]>
        (achievements (tracker w)))).
    + by destruct w as [[? ? ? []] ? []].
    + by apply map_size_insert_None.
  - by destruct w as [[? ? ? []] ? []].
  - destruct w as [[? ? ? []] ? []]. simpl. by rewrite <- app_assoc.
  - apply unlockAchievement_present.
    replace (achievements (tracker (unlocked_world achievementId w)))
      with (<[achievementId :=
                record_for achievementId (clock (env w) (ticks (env w)))]>
              (achievements (tracker w)))
      by (by destruct w as [[? ? ? []] ? []]).
    rewrite lookup_insert_eq. by eexists.
  - apply getAchievementData_own.
  - apply getAchievementData_unknown.
Qed.

Lemma unlockAchievement_once_witness :
  (achievements (tracker session_start) !! "candle-blower" = None) ∧
  (quota_exceeded (env session_start) = false) ∧
  ∃ w1,
    unlockAchievement "candle-blower" session_start = Return Undefined w1 ∧
    size (achievements (tracker w1)) = 1 ∧
    unlockAchievement "candle-blower" w1 = Return Undefined w1 ∧
    getAchievementData "candle-blower" = generic_achievement.
Proof.
  assert (H1 : achievements (tracker session_start) !! "candle-blower" = None)
    by reflexivity.
  assert (H2 : quota_exceeded (env session_start) = false) by reflexivity.
  split_and!; [exact H1 | exact H2 |].
  destruct (unlockAchievement_once session_start "candle-blower" H1 H2)
    as (w1 & E1 & _ & E3 & _ & _ & E6 & _ & E8).
  exists w1. split_and!; [exact E1 | exact E3 | exact E6 |].
  apply E8; reflexivity.
Defined.

(** ** Navigation *)

Lemma PageManager_navigateTo_unregistered w pageId transitionType :
  pages (pm w) !! pageId = None →
  PageManager_navigateTo pageId transitionType w
  = Return Undefined (with_env (logged [not_found pageId]) w).
Proof.
  intros H. unfold PageManager_navigateTo.
  erewrite bind_Return; [|reflexivity].
  rewrite bool_decide_eq_false_2 by (rewrite H; by intros [? ?]).
  cbn [negb]. reflexivity.
Qed.

Lemma PageManager_navigateTo_registered w pageId transitionType :
  is_Some (pages (pm w) !! pageId) →
  PageManager_navigateTo pageId transitionType w
  = (trackProgress pageId;; mret Undefined) (arrive pageId transitionType w).
Proof.
  intros H. unfold PageManager_navigateTo.
  erewrite bind_Return; [|reflexivity].
  rewrite bool_decide_eq_true_2 by done. cbn [negb].
  erewrite bind_Return; [|reflexivity].
  destruct w as [[cur hist pgs t] kb [st q c k d l]].
  unfold arrive, logged. unfold_M.
  destruct (String.eqb cur pageId); cbn [negb];
    destruct (bool_decide (cur ∈ d)), (bool_decide (pageId ∈ d)); cbn [andb];
    rewrite ?app_nil_r; reflexivity.
Qed.

(** The wrappers add their timers to whatever the class method did. *)
Lemma navigateTo_hooks w pageId transitionType :
  navigateTo pageId transitionType w =
  match PageManager_navigateTo pageId transitionType w with
  | Return _ w' => Return Undefined (with_env (logged (hook_timers pageId)) w')
  | Throw e w' => Throw e w'
  end.
Proof.
  unfold navigateTo, navigateTo_enhanced, hook_timers.
  unfold mbind at 1 2 3 4 5 6 7. unfold M_bind.
  destruct (PageManager_navigateTo pageId transitionType w) as [v w'|e w']; [|done].
  destruct w' as [p kb [st q c k d l]]. unfold_M. unfold logged. simpl.
  destruct (String.eqb pageId "wishes"), (String.eqb pageId "games"),
    (String.eqb pageId "menu"), (String.eqb pageId "achievements");
    simpl; rewrite <- ?app_assoc, ?app_nil_r; reflexivity.
Qed.

Lemma navigateTo_unregistered_eq w pageId transitionType :
  pages (pm w) !! pageId = None →
  navigateTo pageId transitionType w
  = Return Undefined (with_env (logged (not_found pageId :: hook_timers pageId)) w).
Proof.
  intros H. rewrite navigateTo_hooks, PageManager_navigateTo_unregistered by done.
  f_equal. destruct w as [p kb [st q c k d l]]. unfold with_env, logged. simpl.
  by rewrite <- app_assoc.
Qed.

Lemma hook_timers_are_timers pageId e :
  e ∈ hook_timers pageId → ∃ callback delay, e = SetTimeout callback delay.
Proof.
  unfold hook_timers.
  repeat case_match; rewrite ?app_nil_r; simpl;
    rewrite ?elem_of_cons, ?elem_of_nil; naive_solver.
Qed.

(** C9: on a page id that is not registered, [navigateTo] (the class
    method as well as the wrapped one the handlers call) returns after
    reporting "Page ... not found" on the console: the page manager (the
    current page, the history and the whole tracker, so visits and
    achievements) and the stored snapshot are what they were, and the
    only additions to the log are the console error and timers of the
    wrappers: no write, no notification, no transition. *)
Theorem navigateTo_unregistered (w : world) (pageId transitionType : string) :
  pages (pm w) !! pageId = None →
  ∃ w',
    navigateTo pageId transitionType w = Return Undefined w' ∧
    PageManager_navigateTo pageId transitionType w
    = Return Undefined (with_env (logged [not_found pageId]) w) ∧
    pm w' = pm w ∧
    currentPage (pm w') = currentPage (pm w) ∧
    pageHistory (pm w') = pageHistory (pm w) ∧
    visitedPages (tracker w') = visitedPages (tracker w) ∧
    achievements (tracker w') = achievements (tracker w) ∧
    localStorage (env w') = localStorage (env w) ∧
    log (env w') = (log (env w) ++ not_found pageId :: hook_timers pageId)%list ∧
    (∀ e, e ∈ hook_timers pageId → ∃ callback delay, e = SetTimeout callback delay).
Proof.
  intros H.
  exists (with_env (logged (not_found pageId :: hook_timers pageId)) w).
  split_and!; try by destruct w as [p kb []].
  - by apply navigateTo_unregistered_eq.
  - by apply PageManager_navigateTo_unregistered.
  - apply hook_timers_are_timers.
Qed.

Lemma navigateTo_unregistered_witness :
  (pages (pm session_start) !! "nonexistent-section" = None) ∧
  ∃ w',
    navigateTo "nonexistent-section" "slide" session_start = Return Undefined w' ∧
    pm w' = pm session_start ∧
    log (env w') = [ConsoleError "Page nonexistent-section not found"].
Proof.
  assert (H : pages (pm session_start) !! "nonexistent-section" = None)
    by reflexivity.
  split; [exact H|].
  destruct (navigateTo_unregistered session_start "nonexistent-section" "slide" H)
    as (w' & E1 & _ & E3 & _ & _ & _ & _ & _ & E9 & _).
  exists w'. split_and!; [exact E1 | exact E3 | exact E9].
Defined.

(** ** Relations preserved by methods *)

Section preserved.
Context (R : world → world → Prop).
Hypothesis R_refl : ∀ w, R w w.
Hypothesis R_trans : ∀ w1 w2 w3, R w1 w2 → R w2 w3 → R w1 w3.

Lemma at_ret {A} (a : A) w : preserved_at R (mret a) w.
Proof. apply R_refl. Qed.

Lemma at_throw {A} e w : preserved_at R (throw e : M A) w.
Proof. apply R_refl. Qed.

Lemma at_gets {A} (g : world → A) w : preserved_at R (gets g) w.
Proof. apply R_refl. Qed.

Lemma at_modify h w : R w (h w) → preserved_at R (modify h) w.
Proof. done. Qed.

Lemma at_bind {A B} (m : M A) (f : A → M B) w :
  preserved_at R m w →
  (∀ a w1, m w = Return a w1 → preserved_at R (f a) w1) →
  preserved_at R (m ≫= f) w.
Proof.
  unfold preserved_at. intros Hm Hf. rewrite final_bind.
  destruct (m w) as [a w1|e w1] eqn:E; [|done].
  eapply R_trans; [exact Hm|]. by apply Hf.
Qed.

Lemma at_gets_bind {A B} (g : world → A) (f : A → M B) w :
  preserved_at R (f (g w)) w → preserved_at R (gets g ≫= f) w.
Proof. done. Qed.

Lemma at_modify_bind {B} h (f : () → M B) w :
  R w (h w) → preserved_at R (f ()) (h w) → preserved_at R (modify h ≫= f) w.
Proof. unfold preserved_at. intros H1 H2. eapply R_trans; [exact H1|exact H2]. Qed.

Lemma at_seq {A B} (m : M A) (k : M B) w :
  preserved_at R m w → preserves R k → preserved_at R (m;; k) w.
Proof. intros Hm Hk. apply at_bind; [done|]. intros _ w1 _. apply Hk. Qed.

Lemma preserves_seq {A B} (m : M A) (k : M B) :
  preserves R m → preserves R k → preserves R (m;; k).
Proof. intros Hm Hk w. by apply at_seq. Qed.

Lemma preserves_ret {A} (a : A) : preserves R (mret a).
Proof. intros w. apply at_ret. Qed.

Lemma preserves_if {A} (b : bool) (m1 m2 : M A) :
  preserves R m1 → preserves R m2 → preserves R (if b then m1 else m2).
Proof. by destruct b. Qed.

Lemma run_related (step_ok : ∀ c, preserves R (call c)) cmds w :
  R w (run cmds w).
Proof.
  revert w. induction cmds as [|c cmds IH]; intros w; [apply R_refl|].
  simpl. eapply R_trans; [apply step_ok|apply IH].
Qed.
End preserved.

(** ** The relations are preorders *)

Lemma container_le_refl c : container_le c c.
Proof. destruct c; simpl; done. Qed.

Lemma container_le_trans c1 c2 c3 :
  container_le c1 c2 → container_le c2 c3 → container_le c1 c3.
Proof.
  destruct c1, c2, c3; simpl; try done.
  - intros H1 H2. by transitivity members0.
  - congruence.
Qed.

Lemma containers_le_refl m : containers_le m m.
Proof. intros k c H. exists c. split; [done|apply container_le_refl]. Qed.

Lemma containers_le_trans m1 m2 m3 :
  containers_le m1 m2 → containers_le m2 m3 → containers_le m1 m3.
Proof.
  intros H1 H2 k c Hk.
  destruct (H1 k c Hk) as (c' & Hk' & Hc).
  destruct (H2 k c' Hk') as (c'' & Hk'' & Hc').
  exists c''. split; [done|]. by eapply container_le_trans.
Qed.

Lemma containers_le_insert_new m k c :
  m !! k = None → containers_le m (<[k := c]> m).
Proof.
  intros H k' c' Hk'. exists c'. split; [|apply container_le_refl].
  rewrite lookup_insert_ne; [done|]. intros ->. congruence.
Qed.

Lemma containers_le_add m k members x :
  m !! k = Some (LiveSet members) →
  containers_le m (<[k := LiveSet ({[x]} ∪ members)]> m).
Proof.
  intros H k' c' Hk'. destruct (decide (k = k')) as [<-|Hne].
  - rewrite lookup_insert_eq. eexists. split; [done|].
    rewrite H in Hk'. injection Hk' as <-. simpl. apply union_subseteq_r.
  - rewrite lookup_insert_ne by done. exists c'.
    split; [done|apply container_le_refl].
Qed.

Lemma progress_le_refl t : progress_le t t.
Proof. split_and!; try done; apply containers_le_refl. Qed.

Lemma progress_le_trans t1 t2 t3 :
  progress_le t1 t2 → progress_le t2 t3 → progress_le t1 t3.
Proof.
  intros (A1 & A2 & A3 & A4 & A5) (B1 & B2 & B3 & B4 & B5).
  split_and!.
  - by transitivity (visitedPages t2).
  - by eapply containers_le_trans.
  - by transitivity (unlockedSecrets t2).
  - by transitivity (achievements t2).
  - by eapply containers_le_trans.
Qed.

Lemma tracker_step_refl w : tracker_step w w.
Proof. by split_and!. Qed.

Lemma tracker_step_trans w1 w2 w3 :
  tracker_step w1 w2 → tracker_step w2 w3 → tracker_step w1 w3.
Proof.
  intros (A1 & A2 & A3 & A4 & A5 & A6 & A7) (B1 & B2 & B3 & B4 & B5 & B6 & B7).
  split_and!; try congruence. by transitivity (log (env w2)).
Qed.

Lemma tracked_refl w : tracked w w.
Proof. split; [apply tracker_step_refl|apply progress_le_refl]. Qed.

Lemma tracked_trans w1 w2 w3 : tracked w1 w2 → tracked w2 w3 → tracked w1 w3.
Proof.
  intros [A1 A2] [B1 B2].
  split; [by eapply tracker_step_trans|by eapply progress_le_trans].
Qed.

Lemma session_step_refl w : session_step w w.
Proof. split; [done|apply progress_le_refl]. Qed.

Lemma session_step_trans w1 w2 w3 :
  session_step w1 w2 → session_step w2 w3 → session_step w1 w3.
Proof.
  intros [A1 A2] [B1 B2]. split; [|by eapply progress_le_trans].
  unfold same_pages in *. congruence.
Qed.

Lemma tracked_session_step w w' : tracked w w' → session_step w w'.
Proof. intros [(_ & _ & H & _) ?]. by split. Qed.

(** A change of the browser that keeps the quota and the DOM and only
    extends the log. *)
Lemma tracked_env w f :
  (∀ b, quota_exceeded (f b) = quota_exceeded b ∧
        dom_pages (f b) = dom_pages b ∧
        log b `prefix_of` log (f b)) →
  tracked w (with_env f w).
Proof.
  intros H. destruct (H (env w)) as (H1 & H2 & H3).
  split; [|apply progress_le_refl]. by destruct w; split_and!.
Qed.

(** A change of the tracker that is progress. *)
Lemma tracked_tracker w f :
  progress_le (tracker w) (f (tracker w)) → tracked w (with_tracker f w).
Proof.
  intros H. split; [by destruct w as [[] ? ?]; split_and!|].
  by destruct w as [[] ? ?].
Qed.

(** One step through a method, for a relation with the given proofs of
    reflexivity and transitivity. *)
Ltac at_step refl trans :=
  lazymatch goal with
  | |- preserved_at _ (mret _) _ => apply (at_ret _ refl)
  | |- preserved_at _ (throw _) _ => apply (at_throw _ refl)
  | |- preserved_at _ (gets _ ≫= _) _ => apply at_gets_bind
  | |- preserved_at _ (modify _ ≫= _) _ => apply (at_modify_bind _ trans)
  | |- preserved_at _ (modify _) _ => apply at_modify
  | |- preserved_at _ (gets _) _ => apply (at_gets _ refl)
  end.

Ltac tracked_step := at_step tracked_refl tracked_trans.

(** ** Methods of the tracker *)

Lemma saveProgress_tracked : preserves tracked saveProgress.
Proof.
  intros w. unfold preserved_at. rewrite saveProgress_eq.
  destruct (quota_exceeded (env w)); simpl; apply tracked_env; intros b;
    split_and!; simpl; try done; by apply prefix_app_r.
Qed.

Lemma save_and_return_tracked {A} (a : A) :
  preserves tracked (saveProgress;; mret a).
Proof.
  apply (preserves_seq _ tracked_trans); [apply saveProgress_tracked|].
  apply (preserves_ret _ tracked_refl).
Qed.

Lemma markPageVisited_tracked pageId : preserves tracked (markPageVisited pageId).
Proof.
  intros w. unfold markPageVisited. tracked_step.
  destruct (bool_decide _); cbn [negb]; [tracked_step|].
  unfold set_visitedPages. tracked_step; [|apply save_and_return_tracked].
  apply tracked_tracker. split_and!; simpl; try done;
    try apply containers_le_refl. apply union_subseteq_r.
Qed.

Lemma unlockSecret_tracked secretId : preserves tracked (unlockSecret secretId).
Proof.
  intros w. unfold unlockSecret. tracked_step.
  destruct (bool_decide _); cbn [negb]; [tracked_step|].
  unfold set_unlockedSecrets. tracked_step; [|apply save_and_return_tracked].
  apply tracked_tracker. split_and!; simpl; try done;
    try apply containers_le_refl. apply union_subseteq_r.
Qed.

Lemma markInteractionComplete_tracked pageId interactionId :
  preserves tracked (markInteractionComplete pageId interactionId).
Proof.
  intros w. unfold markInteractionComplete, add_member. tracked_step.
  apply (at_bind _ tracked_trans).
  - destruct (bool_decide _) eqn:E; cbn [negb]; [tracked_step|].
    unfold set_completedInteractions. tracked_step.
    apply tracked_tracker. split_and!; simpl; try done;
      try apply containers_le_refl.
    apply containers_le_insert_new.
    apply bool_decide_eq_false in E. by apply eq_None_not_Some.
  - intros _ w1 _. tracked_step.
    destruct (completedInteractions (tracker w1) !! pageId) as [[members|j]|] eqn:E;
      [|tracked_step..].
    destruct (bool_decide _); cbn [negb]; [tracked_step|].
    unfold set_completedInteractions. tracked_step; [|apply save_and_return_tracked].
    apply tracked_tracker. split_and!; simpl; try done;
      try apply containers_le_refl.
    by apply containers_le_add.
Qed.

Lemma addCollectible_tracked pageId collectibleId :
  preserves tracked (addCollectible pageId collectibleId).
Proof.
  intros w. unfold addCollectible, add_member. tracked_step.
  apply (at_bind _ tracked_trans).
  - destruct (bool_decide _) eqn:E; cbn [negb]; [tracked_step|].
    unfold set_collectibles. tracked_step.
    apply tracked_tracker. split_and!; simpl; try done;
      try apply containers_le_refl.
    apply containers_le_insert_new.
    apply bool_decide_eq_false in E. by apply eq_None_not_Some.
  - intros _ w1 _. tracked_step.
    destruct (collectibles (tracker w1) !! pageId) as [[members|j]|] eqn:E;
      [|tracked_step..].
    destruct (bool_decide _); cbn [negb]; [tracked_step|].
    unfold set_collectibles. tracked_step; [|apply save_and_return_tracked].
    apply tracked_tracker. split_and!; simpl; try done;
      try apply containers_le_refl.
    by apply containers_le_add.
Qed.

Lemma Date_toISOString_eq w :
  Date_toISOString w = Return (clock (env w) (ticks (env w))) (with_env tick w).
Proof. by destruct w as [? ? []]. Qed.

Lemma unlockAchievement_tracked achievementId :
  preserves tracked (unlockAchievement achievementId).
Proof.
  intros w. unfold unlockAchievement. cbv zeta. tracked_step.
  apply (at_bind _ tracked_trans); [|intros; tracked_step].
  destruct (bool_decide _) eqn:E; cbn [negb]; [tracked_step|].
  apply bool_decide_eq_false in E. apply eq_None_not_Some in E.
  apply (at_bind _ tracked_trans).
  { unfold preserved_at. rewrite Date_toISOString_eq. simpl.
    apply tracked_env. intros b. by split_and!. }
  intros unlockedAt w1. rewrite Date_toISOString_eq. intros [= <- <-].
  unfold set_achievements. tracked_step.
  { apply tracked_tracker. split_and!; simpl; try done;
      try apply containers_le_refl.
    apply insert_subseteq. by destruct w as [[? ? ? []] ? []]. }
  apply (at_seq _ tracked_trans); [apply saveProgress_tracked|].
  intros w2. unfold showAchievementNotification, emit. tracked_step.
  apply tracked_env. intros b. split_and!; simpl; try done.
  by apply prefix_app_r.
Qed.

Lemma trackProgress_tracked pageId : preserves tracked (trackProgress pageId).
Proof.
  intros w. unfold trackProgress.
  apply (at_bind _ tracked_trans); [apply markPageVisited_tracked|].
  intros isFirstVisit w1 _.
  destruct (_ && _); [|tracked_step].
  apply (at_seq _ tracked_trans); [apply unlockAchievement_tracked|].
  apply (preserves_ret _ tracked_refl).
Qed.

(** ** Methods return when the store takes the write *)

Lemma tracked_final {A} (m : M A) w a w' :
  preserves tracked m → m w = Return a w' → tracked w w'.
Proof. intros H E. specialize (H w). unfold preserved_at in H. by rewrite E in H. Qed.

Lemma tracked_quota w w' : tracked w w' → quota_exceeded (env w') = quota_exceeded (env w).
Proof. by intros [(_ & _ & _ & _ & H & _) _]. Qed.

Lemma markPageVisited_returns w pageId :
  quota_exceeded (env w) = false →
  ∃ first w', markPageVisited pageId w = Return first w'.
Proof.
  intros Hq. destruct (decide (pageId ∈ visitedPages (tracker w))) as [H|H].
  - rewrite markPageVisited_present by done. by eexists _, _.
  - rewrite markPageVisited_fresh by done.
    erewrite bind_Return; [by eexists _, _|].
    apply saveProgress_ok. by destruct w as [[? ? ? []] ? []].
Qed.

Lemma unlockAchievement_returns w achievementId :
  quota_exceeded (env w) = false →
  ∃ w', unlockAchievement achievementId w = Return Undefined w'.
Proof.
  intros Hq. destruct (achievements (tracker w) !! achievementId) as [r|] eqn:E.
  - rewrite unlockAchievement_present by (by rewrite E). by eexists.
  - rewrite unlockAchievement_fresh by done. by eexists.
Qed.

Lemma trackProgress_returns w pageId :
  quota_exceeded (env w) = false →
  ∃ w', trackProgress pageId w = Return () w'.
Proof.
  intros Hq. unfold trackProgress.
  destruct (markPageVisited_returns w pageId Hq) as (first & w1 & E1).
  erewrite bind_Return by exact E1.
  destruct (_ && _); [|by eexists].
  assert (quota_exceeded (env w1) = false) as Hq1.
  { erewrite tracked_quota; [exact Hq|].
    eapply tracked_final; [apply markPageVisited_tracked|exact E1]. }
  destruct (unlockAchievement_returns w1 ("first-visit-" +:+ pageId) Hq1) as (w2 & E2).
  erewrite bind_Return by exact E2. by eexists.
Qed.

Lemma Array_pop_snoc {A} (l : list A) (x : A) : Array_pop (l ++ [x]) = Some (x, l).
Proof. unfold Array_pop. by rewrite reverse_snoc, reverse_involutive. Qed.

Lemma goBack_nonempty w rest previousPage :
  pageHistory (pm w) = (rest ++ [previousPage])%list →
  goBack w = (navigateTo previousPage "slideBack";; mret Undefined) (with_history rest w).
Proof.
  intros H. unfold goBack.
  erewrite bind_Return; [|reflexivity].
  rewrite H, Array_pop_snoc.
  unfold mbind, M_bind, set_pageHistory, modify, with_history. simpl.
  by destruct (navigateTo previousPage "slideBack" _).
Qed.

Lemma goBack_empty w :
  pageHistory (pm w) = [] → goBack w = Return Undefined w.
Proof.
  intros H. unfold goBack.
  erewrite bind_Return; [|reflexivity]. by rewrite H.
Qed.

(** Where a navigation to a registered page ends when the store takes
    the writes. *)
Lemma navigateTo_registered_returns w pageId transitionType :
  is_Some (pages (pm w) !! pageId) →
  quota_exceeded (env w) = false →
  ∃ w',
    navigateTo pageId transitionType w = Return Undefined w' ∧
    currentPage (pm w') = pageId ∧
    pageHistory (pm w') = pageHistory (pm (arrive pageId transitionType w)) ∧
    log (env (arrive pageId transitionType w)) `prefix_of` log (env w').
Proof.
  intros Hp Hq. rewrite navigateTo_hooks, PageManager_navigateTo_registered by done.
  destruct (trackProgress_returns (arrive pageId transitionType w) pageId)
    as (w1 & E1); [by destruct w as [[] ? []]|].
  erewrite bind_Return by exact E1.
  pose proof (tracked_final _ _ _ _ (trackProgress_tracked pageId) E1)
    as [(T1 & T2 & _ & _ & _ & _ & T7) _].
  eexists. split; [reflexivity|].
  split_and!.
  - by destruct w1 as [[] ? []], w as [[] ? []].
  - by destruct w1 as [[] ? []].
  - etransitivity; [exact T7|]. destruct w1 as [[] ? []]. simpl.
    by apply prefix_app_r.
Qed.

(** ** [goBack] *)

(** C1 (failing input): from landing, gallery, wishes, the history is
    landing, gallery, and the first [goBack] ends on gallery; but it
    leaves the history landing, wishes, because the [navigateTo] it
    calls pushed the page being left.  So the second [goBack] ends on
    wishes again, not on landing, and the third [goBack] is not a no-op:
    it moves to gallery.  The history is not a stack of the pages to go
    back to. *)
Theorem goBack_scenario_diverges :
  let w3 := final (goBack at_wishes) in
  let w4 := final (goBack w3) in
  let w5 := final (goBack w4) in
  pageHistory (pm at_wishes) = ["landing"; "gallery"] ∧
  goBack at_wishes = Return Undefined w3 ∧
  currentPage (pm w3) = "gallery" ∧
  pageHistory (pm w3) = ["landing"; "wishes"] ∧
  goBack w3 = Return Undefined w4 ∧
  currentPage (pm w4) = "wishes" ∧
  currentPage (pm w4) ≠ "landing" ∧
  pageHistory (pm w4) = ["landing"; "gallery"] ∧
  goBack w4 = Return Undefined w5 ∧
  currentPage (pm w5) = "gallery" ∧
  pm w5 ≠ pm w4.
Proof.
  cbv zeta. split_and!; by vm_compute.
Qed.

(** What [goBack] does do: on an empty history it returns [undefined] in
    the world it started in.  On a history that ends with [previousPage] it
    removes that entry and calls [navigateTo previousPage 'slideBack'];
    when the entry is a registered page and the store takes the writes,
    it returns [undefined], [previousPage] is the current page, and the
    "slideBack" transition between the two pages has been started if both
    have an element.  From landing, gallery, wishes, the first [goBack]
    ends on gallery. *)
Theorem goBack_pops_and_navigates (w : world) (rest : list string) (previousPage : string) :
  (pageHistory (pm w) = [] → goBack w = Return Undefined w) ∧
  (pageHistory (pm w) = (rest ++ [previousPage])%list →
   goBack w
   = (navigateTo previousPage "slideBack";; mret Undefined) (with_history rest w)) ∧
  (pageHistory (pm w) = (rest ++ [previousPage])%list →
   is_Some (pages (pm w) !! previousPage) →
   quota_exceeded (env w) = false →
   ∃ w',
     goBack w = Return Undefined w' ∧
     currentPage (pm w') = previousPage ∧
     (currentPage (pm w) ∈ dom_pages (env w) →
      previousPage ∈ dom_pages (env w) →
      ExecuteTransition (currentPage (pm w)) previousPage "slideBack"
      ∈ log (env w'))) ∧
  (currentPage (pm at_wishes) = "wishes" ∧
   ∃ w3, goBack at_wishes = Return Undefined w3 ∧ currentPage (pm w3) = "gallery").
Proof.
  split_and!.
  - apply goBack_empty.
  - apply goBack_nonempty.
  - intros H Hp Hq. rewrite (goBack_nonempty _ _ _ H).
    destruct (navigateTo_registered_returns (with_history rest w) previousPage "slideBack")
      as (w' & E & Hc & _ & Hl);
      [by destruct w as [[] ? []] | by destruct w as [[] ? []] |].
    erewrite bind_Return by exact E. exists w'.
    split_and!; [done | done |].
    intros H1 H2. eapply elem_of_prefix; [|exact Hl].
    destruct w as [[cur hist pgs t] kb [st q c k d l]]. simpl in *.
    unfold arrive, with_history, with_pm, with_env, logged. simpl.
    rewrite !bool_decide_eq_true_2 by done. simpl.
    apply elem_of_app. right. by left.
  - by vm_compute.
  - eexists. split; by vm_compute.
Qed.

Lemma goBack_pops_and_navigates_witness :
  (pageHistory (pm at_wishes) = (["landing"] ++ ["gallery"])%list) ∧
  is_Some (pages (pm at_wishes) !! "gallery") ∧
  (quota_exceeded (env at_wishes) = false) ∧
  (pageHistory (pm session_start) = []) ∧
  goBack session_start = Return Undefined session_start ∧
  ∃ w',
    goBack at_wishes = Return Undefined w' ∧
    currentPage (pm w') = "gallery".
Proof.
  assert (H1 : pageHistory (pm at_wishes) = (["landing"] ++ ["gallery"])%list)
    by (by vm_compute).
  assert (H2 : is_Some (pages (pm at_wishes) !! "gallery"))
    by (eexists; by vm_compute).
  assert (H3 : quota_exceeded (env at_wishes) = false) by (by vm_compute).
  assert (H4 : pageHistory (pm session_start) = []) by reflexivity.
  split_and!; [exact H1 | exact H2 | exact H3 | exact H4 | |].
  - exact (proj1 (goBack_pops_and_navigates session_start [] "") H4).
  - destruct (proj1 (proj2 (proj2
      (goBack_pops_and_navigates at_wishes ["landing"] "gallery"))) H1 H2 H3)
      as (w' & E1 & E2 & _).
    exists w'. split; [exact E1 | exact E2].
Defined.

(** ** Handlers of the session *)

Lemma PageManager_navigateTo_session pageId transitionType :
  preserves session_step (PageManager_navigateTo pageId transitionType).
Proof.
  intros w. unfold preserved_at.
  destruct (pages (pm w) !! pageId) as [ttl|] eqn:E.
  - rewrite PageManager_navigateTo_registered by (by rewrite E).
    apply session_step_trans with (arrive pageId transitionType w).
    { split; [|apply progress_le_refl]; by destruct w as [[] ? []]. }
    apply tracked_session_step.
    apply (at_seq _ tracked_trans); [apply trackProgress_tracked|].
    apply (preserves_ret _ tracked_refl).
  - rewrite PageManager_navigateTo_unregistered by done. simpl.
    apply tracked_session_step, tracked_env. intros b.
    split_and!; simpl; try done. by apply prefix_app_r.
Qed.

Lemma navigateTo_session pageId transitionType :
  preserves session_step (navigateTo pageId transitionType).
Proof.
  intros w. unfold preserved_at. rewrite navigateTo_hooks.
  pose proof (PageManager_navigateTo_session pageId transitionType w) as H.
  unfold preserved_at in H.
  destruct (PageManager_navigateTo pageId transitionType w) as [v w'|e w'];
    simpl in *; [|done].
  eapply session_step_trans; [exact H|].
  apply tracked_session_step, tracked_env. intros b.
  split_and!; simpl; try done. by apply prefix_app_r.
Qed.

Lemma goBack_session : preserves session_step goBack.
Proof.
  intros w. unfold goBack. apply at_gets_bind.
  apply (at_seq _ session_step_trans); [|apply (preserves_ret _ session_step_refl)].
  destruct (Array_pop _) as [[previousPage rest]|];
    [|apply (at_ret _ session_step_refl)].
  unfold set_pageHistory. apply (at_modify_bind _ session_step_trans).
  { split; [|apply progress_le_refl]; by destruct w as [[] ? []]. }
  apply (at_seq _ session_step_trans); [apply navigateTo_session|].
  apply (preserves_ret _ session_step_refl).
Qed.

Lemma konami_unlock_tracked w :
  pages (pm w) !! "secret" = None → preserved_at tracked konami_unlock w.
Proof.
  intros H. unfold konami_unlock, emit. tracked_step.
  { apply tracked_env. intros b. split_and!; simpl; try done.
    by apply prefix_app_r. }
  apply (at_bind _ tracked_trans); [apply unlockAchievement_tracked|].
  intros v w1 E.
  pose proof (tracked_final _ _ _ _ (unlockAchievement_tracked "secret-explorer") E)
    as [(_ & _ & Hp & _) _].
  apply (at_seq _ tracked_trans); [|apply (preserves_ret _ tracked_refl)].
  unfold preserved_at. rewrite navigateTo_unregistered_eq.
  - simpl. apply tracked_env. intros b. split_and!; simpl; try done.
    by apply prefix_app_r.
  - rewrite Hp. by destruct w as [[] ? []].
Qed.

Lemma konami_unlock_session : preserves session_step konami_unlock.
Proof.
  intros w. unfold konami_unlock, emit.
  apply (at_modify_bind _ session_step_trans).
  { apply tracked_session_step, tracked_env. intros b.
    split_and!; simpl; try done. by apply prefix_app_r. }
  apply (at_seq _ session_step_trans).
  { apply tracked_session_step, unlockAchievement_tracked. }
  apply (preserves_seq _ session_step_trans); [apply navigateTo_session|].
  apply (preserves_ret _ session_step_refl).
Qed.

Lemma onKeydown_session key : preserves session_step (onKeydown key).
Proof.
  intros w. unfold onKeydown. apply at_gets_bind. cbv zeta.
  unfold set_konami_buffer. apply (at_modify_bind _ session_step_trans).
  { split; [done|apply progress_le_refl]. }
  destruct (every_key _ _); [apply konami_unlock_session|].
  apply (at_ret _ session_step_refl).
Qed.

Lemma call_session c : preserves session_step (call c).
Proof.
  destruct c; simpl.
  - apply (preserves_seq _ session_step_trans);
      [|apply (preserves_ret _ session_step_refl)].
    intros w. apply tracked_session_step, markPageVisited_tracked.
  - apply (preserves_seq _ session_step_trans);
      [|apply (preserves_ret _ session_step_refl)].
    intros w. apply tracked_session_step, markInteractionComplete_tracked.
  - apply (preserves_seq _ session_step_trans);
      [|apply (preserves_ret _ session_step_refl)].
    intros w. apply tracked_session_step, unlockSecret_tracked.
  - apply (preserves_seq _ session_step_trans);
      [|apply (preserves_ret _ session_step_refl)].
    intros w. apply tracked_session_step, addCollectible_tracked.
  - apply (preserves_seq _ session_step_trans);
      [|apply (preserves_ret _ session_step_refl)].
    intros w. apply tracked_session_step, unlockAchievement_tracked.
  - apply (preserves_seq _ session_step_trans);
      [apply navigateTo_session|apply (preserves_ret _ session_step_refl)].
  - apply (preserves_seq _ session_step_trans);
      [apply goBack_session|apply (preserves_ret _ session_step_refl)].
  - apply onKeydown_session.
  - intros w. unfold set_quota. apply at_modify.
    split; [|apply progress_le_refl]. by destruct w as [[] ? []].
Qed.

(** In a session the registered pages stay what they are, and the
    tracker only gains. *)
Lemma run_session cmds w : session_step w (run cmds w).
Proof.
  apply (run_related _ session_step_refl session_step_trans), call_session.
Qed.

Lemma startup_pages b w0 :
  startup b = Return () w0 → pages (pm w0) = initializePages.
Proof.
  unfold startup, new_PageManager, loadProgress.
  destruct b as [[[|raw|d]|] q c k dp l]; unfold_M; simpl;
    intros [= <-]; reflexivity.
Qed.

(** ** The registered pages *)

Lemma registered_ids :
  dom initializePages
  = ({[ "landing"; "menu"; "gallery"; "reasons"; "wishes"; "games" ]} : gset string).
Proof. by vm_compute. Qed.

Lemma unlockAchievement_final_unlocked w achievementId :
  is_Some (achievements (tracker (final (unlockAchievement achievementId w)))
           !! achievementId).
Proof.
  destruct (achievements (tracker w) !! achievementId) as [r|] eqn:E.
  { rewrite unlockAchievement_present by (by rewrite E). simpl. by rewrite E. }
  unfold unlockAchievement. cbv zeta.
  erewrite bind_Return; [|reflexivity].
  rewrite bool_decide_eq_false_2 by (rewrite E; by intros [? ?]). cbn [negb].
  rewrite final_bind.
  erewrite bind_Return by apply Date_toISOString_eq.
  erewrite bind_Return; [|reflexivity].
  set (w2 := with_tracker _ _).
  assert (is_Some (achievements (tracker w2) !! achievementId)) as [r Hr].
  { subst w2. destruct w as [[? ? ? []] ? []]. simpl.
    rewrite lookup_insert_eq. by eexists. }
  assert (tracked w2 (final ((saveProgress;;
            showAchievementNotification (getAchievementData achievementId)) w2)))
    as [_ (_ & _ & _ & Hsub & _)].
  { apply (at_seq _ tracked_trans); [apply saveProgress_tracked|].
    intros w3. unfold showAchievementNotification, emit. tracked_step.
    apply tracked_env. intros b. split_and!; simpl; try done.
    by apply prefix_app_r. }
  assert (is_Some (achievements (tracker (final ((saveProgress;;
            showAchievementNotification (getAchievementData achievementId)) w2)))
            !! achievementId)) as Hfinal.
  { exists r. eapply lookup_weaken; [exact Hr|exact Hsub]. }
  destruct ((saveProgress;; showAchievementNotification _) w2); exact Hfinal.
Qed.

Lemma konami_unlock_returns w :
  pages (pm w) !! "secret" = None →
  quota_exceeded (env w) = false →
  ∃ w', konami_unlock w = Return () w' ∧ not_found "secret" ∈ log (env w').
Proof.
  intros Hp Hq. unfold konami_unlock.
  erewrite bind_Return; [|reflexivity].
  set (w1 := with_env _ w).
  destruct (unlockAchievement_returns w1 "secret-explorer") as (w2 & E2);
    [by destruct w as [? ? []]|].
  pose proof (tracked_final _ _ _ _ (unlockAchievement_tracked "secret-explorer") E2)
    as [(_ & _ & Hp2 & _) _].
  erewrite bind_Return by exact E2.
  erewrite bind_Return.
  2:{ apply navigateTo_unregistered_eq. rewrite Hp2. by destruct w as [[] ? []]. }
  eexists. split; [reflexivity|].
  destruct w2 as [? ? []]. simpl. apply elem_of_app. right. by left.
Qed.

(** C10: in every session (the script started in any browser in which it
    starts at all, followed by any commands) the registered pages are
    exactly landing, menu, gallery, reasons, wishes and games.  Hence
    [navigateTo('secret')] and [navigateTo('achievements')] return on the
    error branch with the page manager untouched and "Page ... not found"
    on the console; the Konami handler's body leaves the current page and
    the history as they are, whether it returns or throws, and
    [secret-explorer] is unlocked when it ends; with a store that takes
    the write it returns, having reported the missing page; and no key
    press changes the current page or the history. *)
Theorem registered_pages_fixed (b : Browser) (w0 : world) (cmds : list command) :
  startup b = Return () w0 →
  dom (pages (pm (run cmds w0)))
  = ({[ "landing"; "menu"; "gallery"; "reasons"; "wishes"; "games" ]} : gset string) ∧
  (∀ transitionType, ∃ w',
     navigateTo "secret" transitionType (run cmds w0) = Return Undefined w' ∧
     pm w' = pm (run cmds w0) ∧
     not_found "secret" ∈ log (env w')) ∧
  (∀ transitionType, ∃ w',
     navigateTo "achievements" transitionType (run cmds w0) = Return Undefined w' ∧
     pm w' = pm (run cmds w0) ∧
     not_found "achievements" ∈ log (env w')) ∧
  (currentPage (pm (final (konami_unlock (run cmds w0))))
   = currentPage (pm (run cmds w0)) ∧
   pageHistory (pm (final (konami_unlock (run cmds w0))))
   = pageHistory (pm (run cmds w0)) ∧
   is_Some (achievements (tracker (final (konami_unlock (run cmds w0))))
            !! "secret-explorer")) ∧
  (quota_exceeded (env (run cmds w0)) = false →
   ∃ w', konami_unlock (run cmds w0) = Return () w' ∧
         not_found "secret" ∈ log (env w')) ∧
  (∀ key,
     currentPage (pm (final (onKeydown key (run cmds w0))))
     = currentPage (pm (run cmds w0)) ∧
     pageHistory (pm (final (onKeydown key (run cmds w0))))
     = pageHistory (pm (run cmds w0))).
Proof.
  intros Hstart.
  assert (pages (pm (run cmds w0)) = initializePages) as Hpages.
  { destruct (run_session cmds w0) as [Hsame _]. unfold same_pages in Hsame.
    rewrite Hsame. by eapply startup_pages. }
  set (w := run cmds w0) in *.
  assert (pages (pm w) !! "secret" = None) as Hsecret by (by rewrite Hpages).
  assert (pages (pm w) !! "achievements" = None) as Hach by (by rewrite Hpages).
  assert (∀ pageId transitionType, pages (pm w) !! pageId = None →
            ∃ w', navigateTo pageId transitionType w = Return Undefined w' ∧
                  pm w' = pm w ∧ not_found pageId ∈ log (env w')) as Hnav.
  { intros pageId transitionType H.
    rewrite navigateTo_unregistered_eq by done.
    eexists. split; [reflexivity|].
    destruct w as [? ? []]. split; [done|]. simpl.
    apply elem_of_app. right. by left. }
  split_and!.
  - rewrite Hpages. apply registered_ids.
  - intros transitionType. by apply Hnav.
  - intros transitionType. by apply Hnav.
  - by destruct (konami_unlock_tracked w Hsecret) as [(H1 & _) _].
  - by destruct (konami_unlock_tracked w Hsecret) as [(_ & H2 & _) _].
  - unfold konami_unlock.
    erewrite bind_Return; [|reflexivity].
    set (w1 := with_env _ w).
    pose proof (unlockAchievement_final_unlocked w1 "secret-explorer") as [r Hr].
    rewrite final_bind.
    destruct (unlockAchievement "secret-explorer" w1) as [v w2|e w2] eqn:E2;
      simpl in Hr; [|by exists r].
    pose proof (navigateTo_session "secret" "slide" w2) as [_ (_ & _ & _ & Hsub & _)].
    rewrite final_bind.
    destruct (navigateTo "secret" "slide" w2) as [v' w3|e' w3]; simpl in *;
      exists r; eapply lookup_weaken; eauto.
  - by apply konami_unlock_returns.
  - intros key. unfold onKeydown.
    erewrite bind_Return; [|reflexivity]. cbv zeta.
    erewrite bind_Return; [|reflexivity].
    set (w1 := {| pm := pm w; konami_buffer := _; env := env w |}).
    destruct (every_key _ _); [|done].
    destruct (konami_unlock_tracked w1 Hsecret) as [(H1 & H2 & _) _].
    by split.
Qed.

Lemma registered_pages_fixed_witness :
  startup fresh_browser = Return () session_start ∧
  dom (pages (pm (run [NavigateTo "gallery" "slide"; Keydown "a"] session_start)))
  = ({[ "landing"; "menu"; "gallery"; "reasons"; "wishes"; "games" ]} : gset string) ∧
  ∃ w',
    navigateTo "secret" "slide"
      (run [NavigateTo "gallery" "slide"; Keydown "a"] session_start)
    = Return Undefined w' ∧
    pm w' = pm (run [NavigateTo "gallery" "slide"; Keydown "a"] session_start).
Proof.
  assert (H : startup fresh_browser = Return () session_start) by reflexivity.
  split; [exact H|].
  destruct (registered_pages_fixed fresh_browser session_start
              [NavigateTo "gallery" "slide"; Keydown "a"] H)
    as (E1 & E2 & _).
  split; [exact E1|].
  destruct (E2 "slide") as (w' & E3 & E4 & _).
  exists w'. split; [exact E3 | exact E4].
Defined.

(** Typing the Konami code in a fresh session: the achievement is
    unlocked, the visitor stays on landing with an empty history, and the
    console reports that the secret page does not exist. *)
Lemma konami_code_example :
  let w := run (Keydown <$> konami_code) session_start in
  is_Some (achievements (tracker w) !! "secret-explorer") ∧
  currentPage (pm w) = "landing" ∧
  pageHistory (pm w) = [] ∧
  not_found "secret" ∈ log (env w) ∧
  Announce "Secret unlocked!" ∈ log (env w).
Proof.
  cbv zeta. split_and!; [eexists; by vm_compute | by vm_compute | by vm_compute | |].
  - apply (bool_decide_unpack _). by vm_compute.
  - apply (bool_decide_unpack _). by vm_compute.
Qed.

(** ** What a reload restores *)

Lemma loadProgress_document w d :
  localStorage (env w) = Some (Document d) →
  loadProgress w = Return () (with_tracker (λ _, loaded d) w).
Proof.
  destruct w as [[cur hist pgs t] kb [st q c k dp l]]. simpl. intros ->.
  reflexivity.
Qed.

Lemma startup_document b d :
  localStorage b = Some (Document d) →
  startup b =
  Return () {| pm := {| currentPage := "landing"; pageHistory := [];
                        pages := initializePages;
                        progressTracker := loaded d |};
               konami_buffer := []; env := b |}.
Proof.
  destruct b as [st q c k dp l]. simpl. intros ->. reflexivity.
Qed.

Lemma Map_of_entries_snoc {V} (l : list (string * V)) k v :
  Map_of_entries (l ++ [(k, v)]) = <[k := v]> (Map_of_entries l).
Proof. unfold Map_of_entries. by rewrite foldl_app. Qed.

Lemma Map_of_entries_NoDup {V} (l : list (string * V)) :
  NoDup l.*1 → Map_of_entries l = list_to_map l.
Proof.
  induction l as [|[k v] l IH] using rev_ind; [done|].
  rewrite fmap_app, NoDup_app. intros (Hl & Hk & _).
  rewrite Map_of_entries_snoc, IH by done.
  rewrite list_to_map_snoc; [done|].
  intros Hin. apply (Hk k Hin). simpl. by left.
Qed.

Lemma entries_by_id (l : list (string * AchievementRecord)) :
  Forall (λ kr, a_id kr.2 = kr.1) l →
  (λ a, (a_id a, a)) <$> l.*2 = l.
Proof.
  induction 1 as [|[k r] l Hk Hl IH]; [done|].
  rewrite !fmap_cons, IH. simpl in Hk |- *. by rewrite Hk.
Qed.

Lemma achievements_restored (m : gmap string AchievementRecord) :
  (∀ k r, m !! k = Some r → a_id r = k) →
  Map_of_entries ((λ a, (a_id a, a)) <$> (map_to_list m).*2) = m.
Proof.
  intros H. rewrite entries_by_id.
  - rewrite Map_of_entries_NoDup by apply NoDup_fst_map_to_list.
    apply list_to_map_to_list.
  - apply Forall_forall. intros [k r] Hin. simpl.
    apply H. by apply elem_of_map_to_list.
Qed.

Lemma loaded_snapshot t lastVisit :
  keyed_by_id t → loaded (snapshot t lastVisit) = restored t.
Proof.
  intros H. unfold loaded, restored, snapshot. simpl.
  rewrite !list_to_set_elements_L, achievements_restored by done.
  by rewrite <- !map_fmap_compose.
Qed.

(** X2: after a save that went through and a load, the tracker is what
    [restored] describes; a per-page set that had been recorded is then
    the empty object and none of its members is left. *)
Lemma save_load_restored w :
  quota_exceeded (env w) = false →
  keyed_by_id (tracker w) →
  (saveProgress;; loadProgress) w
  = Return () (with_tracker (λ _, restored (tracker w))
                 (with_env (saved (tracker w)) w)) ∧
  (∀ pageId members,
     completedInteractions (tracker w) !! pageId = Some (LiveSet members) →
     completedInteractions (restored (tracker w)) !! pageId
     = Some (PlainData EmptyObject)) ∧
  (∀ pageId members,
     collectibles (tracker w) !! pageId = Some (LiveSet members) →
     collectibles (restored (tracker w)) !! pageId = Some (PlainData EmptyObject)).
Proof.
  intros Hq Hk. split_and!.
  - erewrite bind_Return by (by apply saveProgress_ok).
    erewrite loadProgress_document by (by destruct w as [? ? []]).
    rewrite loaded_snapshot by done. by destruct w as [[] ? []].
  - intros pageId members H. simpl. by rewrite lookup_fmap, H.
  - intros pageId members H. simpl. by rewrite lookup_fmap, H.
Qed.

(** The same across a reload of the page. *)
Lemma reload_restored w lastVisit :
  localStorage (env w) = Some (Document (snapshot (tracker w) lastVisit)) →
  keyed_by_id (tracker w) →
  ∃ w', reload w = Return () w' ∧ tracker w' = restored (tracker w) ∧
        currentPage (pm w') = "landing" ∧ pageHistory (pm w') = [].
Proof.
  intros Hs Hk. unfold reload. erewrite startup_document by exact Hs.
  eexists. split; [reflexivity|]. simpl.
  by rewrite loaded_snapshot.
Qed.

(** ** One-way progress within a session *)

Lemma recorded_le t t' pageId :
  containers_le (completedInteractions t) (completedInteractions t') →
  (recorded t pageId ≤ recorded t' pageId)%nat.
Proof.
  intros H. unfold recorded.
  destruct (completedInteractions t !! pageId) as [[s|j]|] eqn:E; [|lia..].
  destruct (H _ _ E) as (c' & -> & Hc). destruct c' as [s'|]; [|done].
  by apply subseteq_size.
Qed.

(** X3: whatever the handlers of a session do, in whatever order and whether
    they return or throw, no member and no achievement record is removed
    or altered, so no cardinality decreases. *)
Lemma session_progress_monotone cmds w :
  progress_le (tracker w) (tracker (run cmds w)) ∧
  (size (visitedPages (tracker w)) ≤ size (visitedPages (tracker (run cmds w))))%nat ∧
  (size (unlockedSecrets (tracker w))
   ≤ size (unlockedSecrets (tracker (run cmds w))))%nat ∧
  (size (achievements (tracker w)) ≤ size (achievements (tracker (run cmds w))))%nat ∧
  (∀ pageId, (recorded (tracker w) pageId ≤ recorded (tracker (run cmds w)) pageId)%nat) ∧
  (∀ achievementId r,
     achievements (tracker w) !! achievementId = Some r →
     achievements (tracker (run cmds w)) !! achievementId = Some r).
Proof.
  destruct (run_session cmds w) as [_ H].
  pose proof H as (H1 & H2 & H3 & H4 & H5).
  split_and!; [done | by apply subseteq_size | by apply subseteq_size
              | by apply map_subseteq_size | | ].
  - intros pageId. by apply recorded_le.
  - intros achievementId r Hr. by eapply lookup_weaken.
Qed.

(** * Further properties *)

Lemma isPageCompleted_threshold_witness :
  inherited "reasons" = false ∧
  (isPageCompleted (tracker session_start) "reasons" = Boolean true ↔
   (threshold "reasons" ≤ recorded (tracker session_start) "reasons")%nat) ∧
  isPageCompleted (tracker session_start) "reasons" = Undefined.
Proof.
  assert (H : inherited "reasons" = false) by reflexivity.
  split; [exact H|].
  destruct (isPageCompleted_threshold (tracker session_start) "reasons" H)
    as (E1 & _ & E3).
  split; [exact E1|]. apply E3. reflexivity.
Defined.

Lemma keyed_by_id_busy_session : keyed_by_id (tracker busy_session).
Proof.
  intros k r H.
  assert (achievements (tracker busy_session)
          = {[ "candle-blower" := record_for "candle-blower" (clock fresh_browser 4) ]})
    as E by (by vm_compute).
  rewrite E in H. apply lookup_singleton_Some in H as [<- <-]. reflexivity.
Defined.

Lemma save_load_restored_witness :
  quota_exceeded (env busy_session) = false ∧
  keyed_by_id (tracker busy_session) ∧
  (saveProgress;; loadProgress) busy_session
  = Return () (with_tracker (λ _, restored (tracker busy_session))
                 (with_env (saved (tracker busy_session)) busy_session)).
Proof.
  assert (H1 : quota_exceeded (env busy_session) = false) by reflexivity.
  split_and!; [exact H1 | exact keyed_by_id_busy_session |].
  exact (proj1 (save_load_restored busy_session H1 keyed_by_id_busy_session)).
Defined.

(** ** What the methods of the tracker do to the achievements *)

Lemma ach_same_refl w : ach_same w w.
Proof. done. Qed.

Lemma ach_same_trans w1 w2 w3 : ach_same w1 w2 → ach_same w2 w3 → ach_same w1 w3.
Proof. unfold ach_same. congruence. Qed.

(** Walks through a method made of the primitives of the monad, leaving
    the updates of the world to [side]. *)
Ltac walk refl trans side :=
  repeat first
    [ at_step refl trans
    | lazymatch goal with
      | |- preserved_at _ (if ?b then _ else _) _ => destruct b
      | |- preserved_at _ (match ?x with _ => _ end) _ => destruct x
      | |- preserved_at _ (_ ≫= _) _ => apply (at_bind _ trans); [|intros ? ? _]
      end
    | side tt ].

Ltac ach_same_side _ :=
  lazymatch goal with
  | |- ach_same ?w _ => by destruct w as [[? ? ? []] ? []]
  end.

Ltac unfold_tracker :=
  unfold markPageVisited, unlockSecret, markInteractionComplete, addCollectible,
    add_member, saveProgress, localStorage_setItem, Date_toISOString, emit,
    set_visitedPages, set_completedInteractions, set_unlockedSecrets,
    set_collectibles.

Lemma markPageVisited_ach_same pageId : preserves ach_same (markPageVisited pageId).
Proof.
  intros w. unfold_tracker. walk ach_same_refl ach_same_trans ach_same_side.
Qed.

Lemma unlockSecret_ach_same secretId : preserves ach_same (unlockSecret secretId).
Proof.
  intros w. unfold_tracker. walk ach_same_refl ach_same_trans ach_same_side.
Qed.

Lemma markInteractionComplete_ach_same pageId interactionId :
  preserves ach_same (markInteractionComplete pageId interactionId).
Proof.
  intros w. unfold_tracker. walk ach_same_refl ach_same_trans ach_same_side.
Qed.

Lemma addCollectible_ach_same pageId collectibleId :
  preserves ach_same (addCollectible pageId collectibleId).
Proof.
  intros w. unfold_tracker. walk ach_same_refl ach_same_trans ach_same_side.
Qed.

Lemma saveProgress_ach_same : preserves ach_same saveProgress.
Proof.
  intros w. unfold_tracker. walk ach_same_refl ach_same_trans ach_same_side.
Qed.

Lemma unlocks_refl P w : unlocks P w w.
Proof. intros k r H. by left. Qed.

Lemma unlocks_trans P w1 w2 w3 : unlocks P w1 w2 → unlocks P w2 w3 → unlocks P w1 w3.
Proof.
  intros H1 H2 k r H. destruct (H2 k r H) as [H'|H']; [by apply H1|by right].
Qed.

Lemma unlocks_weaken (P Q : string → Prop) w w' :
  (∀ k, P k → Q k) → unlocks P w w' → unlocks Q w w'.
Proof. intros HPQ H k r Hk. destruct (H k r Hk) as [?|[? ?]]; auto. Qed.

Lemma ach_same_unlocks P w w' : ach_same w w' → unlocks P w w'.
Proof. intros H k r Hk. left. by rewrite <- H. Qed.

Lemma preserves_weaken {A} (R R' : world → world → Prop) (m : M A) :
  (∀ w w', R w w' → R' w w') → preserves R m → preserves R' m.
Proof. intros H Hm w. apply H, Hm. Qed.

Lemma unlockAchievement_unlocks achievementId :
  preserves (unlocks (λ k, k = achievementId)) (unlockAchievement achievementId).
Proof.
  intros w. unfold preserved_at.
  destruct (achievements (tracker w) !! achievementId) as [r|] eqn:E.
  { rewrite unlockAchievement_present by (by rewrite E). apply unlocks_refl. }
  unfold unlockAchievement. cbv zeta.
  erewrite bind_Return; [|reflexivity].
  rewrite bool_decide_eq_false_2 by (rewrite E; by intros [? ?]). cbn [negb].
  apply (at_seq _ (unlocks_trans _));
    [|intros w'; apply (at_ret _ (unlocks_refl _))].
  apply (at_bind _ (unlocks_trans _)).
  { unfold preserved_at. rewrite Date_toISOString_eq. simpl.
    apply ach_same_unlocks. by destruct w as [? ? []]. }
  intros unlockedAt w1. rewrite Date_toISOString_eq. intros [= <- <-].
  unfold set_achievements. apply (at_modify_bind _ (unlocks_trans _)).
  { intros k r. destruct w as [[? ? ? []] ? []]. simpl.
    destruct (decide (achievementId = k)) as [<-|Hne].
    - rewrite lookup_insert_eq. intros [= <-]. by right.
    - rewrite lookup_insert_ne by done. by left. }
  apply (at_seq _ (unlocks_trans _)).
  { apply ach_same_unlocks, saveProgress_ach_same. }
  intros w2. apply ach_same_unlocks.
  unfold showAchievementNotification, emit. by destruct w2 as [? ? []].
Qed.

Lemma trackProgress_unlocks pageId :
  preserves (unlocks (λ k, k = "first-visit-" +:+ pageId)) (trackProgress pageId).
Proof.
  intros w. unfold trackProgress. apply (at_bind _ (unlocks_trans _)).
  { apply ach_same_unlocks, markPageVisited_ach_same. }
  intros first w1 _. destruct (_ && _); [|apply (at_ret _ (unlocks_refl _))].
  apply (at_seq _ (unlocks_trans _)); [apply unlockAchievement_unlocks|].
  intros w2. apply (at_ret _ (unlocks_refl _)).
Qed.

(** ** From the tracker to the handlers *)

(** A relation that only looks at the tracker, and that the tracker's
    part of a navigation keeps, is kept by the handlers of navigation and
    of the keyboard. *)
Section handlers.
Context (R : world → world → Prop).
Hypothesis R_refl : ∀ w, R w w.
Hypothesis R_trans : ∀ w1 w2 w3, R w1 w2 → R w2 w3 → R w1 w3.
Hypothesis R_env : ∀ w f, R w (with_env f w).
Hypothesis R_pm :
  ∀ w f, (∀ p, progressTracker (f p) = progressTracker p) → R w (with_pm f w).
Hypothesis R_buffer :
  ∀ w b, R w {| pm := pm w; konami_buffer := b; env := env w |}.
Hypothesis R_track : ∀ pageId, preserves R (trackProgress pageId).
Hypothesis R_secret : preserves R (unlockAchievement "secret-explorer").

Ltac handlers_side _ :=
  first [ apply R_env | apply R_pm; by intros [] | apply R_buffer
        | apply R_track | apply R_secret ].

Lemma PageManager_navigateTo_handlers pageId transitionType :
  preserves R (PageManager_navigateTo pageId transitionType).
Proof.
  intros w. unfold PageManager_navigateTo, querySelector_page, emit,
    set_pageHistory, set_currentPage.
  walk R_refl R_trans handlers_side.
Qed.

Lemma navigateTo_handlers pageId transitionType :
  preserves R (navigateTo pageId transitionType).
Proof.
  intros w. unfold navigateTo, navigateTo_enhanced, emit.
  walk R_refl R_trans
    ltac:(fun _ => first [apply PageManager_navigateTo_handlers | handlers_side tt]).
Qed.

Lemma goBack_handlers : preserves R goBack.
Proof.
  intros w. unfold goBack, set_pageHistory.
  walk R_refl R_trans
    ltac:(fun _ => first [apply navigateTo_handlers | handlers_side tt]).
Qed.

Lemma onKeydown_handlers key : preserves R (onKeydown key).
Proof.
  intros w. unfold onKeydown, konami_unlock, set_konami_buffer, emit. cbv zeta.
  walk R_refl R_trans
    ltac:(fun _ => first [apply navigateTo_handlers | handlers_side tt]).
Qed.

Lemma call_handlers c :
  (∀ pageId, preserves R (markPageVisited pageId)) →
  (∀ pageId interactionId, preserves R (markInteractionComplete pageId interactionId)) →
  (∀ secretId, preserves R (unlockSecret secretId)) →
  (∀ pageId collectibleId, preserves R (addCollectible pageId collectibleId)) →
  match c with
  | UnlockAchievement achievementId => preserves R (unlockAchievement achievementId)
  | _ => True
  end →
  preserves R (call c).
Proof.
  intros H1 H2 H3 H4 H5 w. destruct c; simpl; unfold set_quota.
  all: walk R_refl R_trans
    ltac:(fun _ => first [ apply H1 | apply H2 | apply H3 | apply H4 | apply H5
                         | apply navigateTo_handlers | apply goBack_handlers
                         | apply onKeydown_handlers | handlers_side tt ]).
Qed.
End handlers.

(** ** Where a navigation ends, whether it returns or throws *)

Lemma final_seq_ret {A B} (m : M A) (b : B) w :
  final ((m;; mret b) w) = final (m w).
Proof. rewrite final_bind. by destruct (m w). Qed.

Lemma navigateTo_registered_tracked w pageId transitionType :
  is_Some (pages (pm w) !! pageId) →
  tracked (arrive pageId transitionType w)
          (final (navigateTo pageId transitionType w)).
Proof.
  intros H. rewrite navigateTo_hooks, PageManager_navigateTo_registered by done.
  pose proof (trackProgress_tracked pageId (arrive pageId transitionType w)) as Ht.
  unfold preserved_at in Ht.
  unfold mbind, M_bind.
  destruct (trackProgress pageId (arrive pageId transitionType w)) as [v w1|e w1];
    simpl in *; [|done].
  eapply tracked_trans; [exact Ht|].
  apply tracked_env. intros b. split_and!; simpl; try done. by apply prefix_app_r.
Qed.

Lemma navigateTo_unregistered_tracked w pageId transitionType :
  pages (pm w) !! pageId = None →
  tracked w (final (navigateTo pageId transitionType w)).
Proof.
  intros H. rewrite navigateTo_unregistered_eq by done. simpl.
  apply tracked_env. intros b. split_and!; simpl; try done. by apply prefix_app_r.
Qed.

Lemma markPageVisited_visited w pageId :
  pageId ∈ visitedPages (tracker (final (markPageVisited pageId w))).
Proof.
  destruct (decide (pageId ∈ visitedPages (tracker w))) as [H|H].
  { by rewrite markPageVisited_present. }
  rewrite markPageVisited_fresh, final_seq_ret, saveProgress_eq by done.
  assert (pageId ∈ visitedPages (visit pageId (tracker w))) as Hin.
  { apply elem_of_union_l, elem_of_singleton. done. }
  destruct w as [[? ? ? []] ? [? [] ? ? ? ?]]; exact Hin.
Qed.

Lemma trackProgress_visited w pageId :
  pageId ∈ visitedPages (tracker (final (trackProgress pageId w))).
Proof.
  unfold trackProgress. rewrite final_bind.
  pose proof (markPageVisited_visited w pageId) as H.
  destruct (markPageVisited pageId w) as [first w1|e w1]; simpl in H; [|done].
  destruct (_ && _); [|done].
  rewrite final_seq_ret.
  destruct (unlockAchievement_tracked ("first-visit-" +:+ pageId) w1)
    as [_ (Hsub & _)].
  by apply Hsub.
Qed.

Lemma navigateTo_registered_visited w pageId transitionType :
  is_Some (pages (pm w) !! pageId) →
  pageId ∈ visitedPages (tracker (final (navigateTo pageId transitionType w))).
Proof.
  intros H. rewrite navigateTo_hooks, PageManager_navigateTo_registered by done.
  pose proof (trackProgress_visited (arrive pageId transitionType w) pageId) as Hv.
  unfold mbind, M_bind.
  destruct (trackProgress pageId (arrive pageId transitionType w)) as [v w1|e w1];
    simpl in *; [|done].
  by destruct w1 as [[? ? ? []] ? []].
Qed.

Lemma navigateTo_registered_nav w pageId transitionType :
  is_Some (pages (pm w) !! pageId) →
  currentPage (pm (final (navigateTo pageId transitionType w))) = pageId ∧
  pageHistory (pm (final (navigateTo pageId transitionType w)))
  = (if String.eqb (currentPage (pm w)) pageId then pageHistory (pm w)
     else (pageHistory (pm w) ++ [currentPage (pm w)])%list) ∧
  pages (pm (final (navigateTo pageId transitionType w))) = pages (pm w) ∧
  konami_buffer (final (navigateTo pageId transitionType w)) = konami_buffer w.
Proof.
  intros H.
  destruct (navigateTo_registered_tracked w pageId transitionType H)
    as [(H1 & H2 & H3 & H4 & _) _].
  split_and!.
  - rewrite H1. by destruct w as [[] ? []].
  - rewrite H2. by destruct w as [[] ? []].
  - rewrite H3. by destruct w as [[] ? []].
  - rewrite H4. by destruct w as [[] ? []].
Qed.

(** X4: a navigation to a registered page changes the navigation state in
    the same way whether the progress write succeeds or throws: the
    target is the current page; the page left is appended to the history
    unless it is the target itself, in which case the history stays as it
    is; the registered pages and the key buffer are untouched; and the
    target is among the visited pages. *)
Theorem navigateTo_registered_state (w : world) (pageId transitionType : string) :
  is_Some (pages (pm w) !! pageId) →
  currentPage (pm (final (navigateTo pageId transitionType w))) = pageId ∧
  pageHistory (pm (final (navigateTo pageId transitionType w)))
  = (if String.eqb (currentPage (pm w)) pageId then pageHistory (pm w)
     else (pageHistory (pm w) ++ [currentPage (pm w)])%list) ∧
  pages (pm (final (navigateTo pageId transitionType w))) = pages (pm w) ∧
  konami_buffer (final (navigateTo pageId transitionType w)) = konami_buffer w ∧
  pageId ∈ visitedPages (tracker (final (navigateTo pageId transitionType w))) ∧
  progress_le (tracker w) (tracker (final (navigateTo pageId transitionType w))).
Proof.
  intros H.
  destruct (navigateTo_registered_tracked w pageId transitionType H)
    as [(H1 & H2 & H3 & H4 & _) H5].
  split_and!.
  - rewrite H1. by destruct w as [[] ? []].
  - rewrite H2. by destruct w as [[] ? []].
  - rewrite H3. by destruct w as [[] ? []].
  - rewrite H4. by destruct w as [[] ? []].
  - by apply navigateTo_registered_visited.
  - unfold grows in H5. by destruct w as [[] ? []].
Qed.

Lemma navigateTo_registered_state_witness :
  is_Some (pages (pm session_start) !! "gallery") ∧
  currentPage (pm (final (navigateTo "gallery" "slide" session_start))) = "gallery" ∧
  pageHistory (pm (final (navigateTo "gallery" "slide" session_start))) = ["landing"].
Proof.
  assert (H : is_Some (pages (pm session_start) !! "gallery"))
    by (eexists; reflexivity).
  split; [exact H|].
  destruct (navigateTo_registered_state session_start "gallery" "slide" H)
    as (E1 & E2 & _).
  split; [exact E1 | exact E2].
Defined.

(** ** The navigation state in a session *)

Lemma tracked_nav_ok w w' : tracked w w' → nav_ok w → nav_ok w'.
Proof.
  intros [(H1 & H2 & H3 & _) _] (N1 & N2 & N3 & N4).
  unfold nav_ok. rewrite H1, H2, H3. by split_and!.
Qed.

Lemma arrive_nav_ok w pageId transitionType :
  nav_ok w → is_Some (initializePages !! pageId) →
  nav_ok (arrive pageId transitionType w).
Proof.
  intros (N1 & N2 & N3 & N4) Hp.
  destruct w as [[cur hist pgs t] kb b]. unfold nav_ok, arrive in *. simpl in *.
  split_and!; [done | done | |].
  - destruct (String.eqb cur pageId); [done|].
    apply Forall_app. split; [done|]. by apply Forall_singleton.
  - destruct (String.eqb_spec cur pageId) as [->|Hne]; [done|].
    rewrite last_snoc. congruence.
Qed.

Lemma list_snoc_cases {A} (l : list A) : l = [] ∨ ∃ h x, l = (h ++ [x])%list.
Proof. destruct l as [|x l] using rev_ind; [by left|right; eauto]. Qed.

Lemma navigateTo_nav_ok w pageId transitionType :
  nav_ok w → nav_ok (final (navigateTo pageId transitionType w)).
Proof.
  intros Hn. destruct (pages (pm w) !! pageId) as [ttl|] eqn:E.
  - eapply tracked_nav_ok.
    + apply navigateTo_registered_tracked. by rewrite E.
    + apply arrive_nav_ok; [done|]. destruct Hn as (<- & _). by rewrite E.
  - eapply tracked_nav_ok; [|exact Hn]. by apply navigateTo_unregistered_tracked.
Qed.

Lemma goBack_final w h previousPage :
  nav_ok w →
  pageHistory (pm w) = (h ++ [previousPage])%list →
  currentPage (pm (final (goBack w))) = previousPage ∧
  pageHistory (pm (final (goBack w))) = (h ++ [currentPage (pm w)])%list ∧
  konami_buffer (final (goBack w)) = konami_buffer w ∧
  nav_ok (final (goBack w)).
Proof.
  intros Hn Hh. pose proof Hn as (N1 & N2 & N3 & N4).
  rewrite (goBack_nonempty _ _ _ Hh), final_seq_ret.
  rewrite Hh in N3, N4. apply Forall_app in N3 as [N3 N3'].
  rewrite Forall_singleton in N3'. rewrite last_snoc in N4.
  assert (String.eqb (currentPage (pm w)) previousPage = false) as Hne.
  { apply String.eqb_neq. congruence. }
  destruct (navigateTo_registered_nav (with_history h w) previousPage "slideBack")
    as (E1 & E2 & E3 & E4).
  { destruct w as [[cur hist pgs t] kb b]. simpl in *. by rewrite N1. }
  assert (currentPage (pm (with_history h w)) = currentPage (pm w)) as Ec
    by (by destruct w as [[] ? ?]).
  assert (pageHistory (pm (with_history h w)) = h) as Eh
    by (by destruct w as [[] ? ?]).
  assert (pages (pm (with_history h w)) = pages (pm w)) as Ep
    by (by destruct w as [[] ? ?]).
  assert (konami_buffer (with_history h w) = konami_buffer w) as Ek
    by (by destruct w as [[] ? ?]).
  rewrite Ec, Eh, Hne in E2. rewrite Ep in E3. rewrite Ek in E4.
  split_and!; [done..|].
  unfold nav_ok. rewrite E1, E2, E3. split_and!; [done | done | |].
  - apply Forall_app. split; [done|]. by apply Forall_singleton.
  - rewrite last_snoc. congruence.
Qed.

Lemma goBack_nav_ok w : nav_ok w → nav_ok (final (goBack w)).
Proof.
  intros Hn. destruct (list_snoc_cases (pageHistory (pm w))) as [H|(h & x & H)].
  - by rewrite goBack_empty.
  - by destruct (goBack_final w h x Hn H) as (_ & _ & _ & ?).
Qed.

Lemma onKeydown_tracked w key :
  pages (pm w) !! "secret" = None →
  tracked {| pm := pm w; konami_buffer := push_key (konami_buffer w) key;
             env := env w |}
          (final (onKeydown key w)).
Proof.
  intros H. unfold onKeydown.
  erewrite bind_Return; [|reflexivity]. cbv zeta.
  erewrite bind_Return; [|reflexivity].
  fold (push_key (konami_buffer w) key).
  destruct (every_key _ _); [|apply tracked_refl].
  by apply konami_unlock_tracked.
Qed.

Lemma nav_ok_secret w : nav_ok w → pages (pm w) !! "secret" = None.
Proof. by intros (-> & _). Qed.

Lemma call_nav_ok c w : nav_ok w → nav_ok (final (call c w)).
Proof.
  intros Hn. destruct c; simpl; rewrite ?final_seq_ret.
  - eapply tracked_nav_ok; [apply markPageVisited_tracked|done].
  - eapply tracked_nav_ok; [apply markInteractionComplete_tracked|done].
  - eapply tracked_nav_ok; [apply unlockSecret_tracked|done].
  - eapply tracked_nav_ok; [apply addCollectible_tracked|done].
  - eapply tracked_nav_ok; [apply unlockAchievement_tracked|done].
  - by apply navigateTo_nav_ok.
  - by apply goBack_nav_ok.
  - eapply tracked_nav_ok; [apply onKeydown_tracked, nav_ok_secret, Hn|].
    by destruct w as [[] ? ?].
  - by destruct w as [[] ? []].
Qed.

Lemma startup_nav_ok b w0 : startup b = Return () w0 → nav_ok w0.
Proof.
  unfold startup, new_PageManager, loadProgress.
  destruct b as [[[|raw|d]|] q c k dp l]; unfold_M; simpl;
    intros [= <-]; by split_and!; [| eexists | |].
Qed.

Lemma run_snoc cmds c w : run (cmds ++ [c]) w = final (call c (run cmds w)).
Proof. unfold run. by rewrite foldl_app. Qed.

Lemma run_nav_ok cmds w : nav_ok w → nav_ok (run cmds w).
Proof.
  intros Hn. induction cmds as [|c cmds IH] using rev_ind; [done|].
  rewrite run_snoc. by apply call_nav_ok.
Qed.

(** X5: in every session the current page is one of the six registered
    pages, so is every entry of the history, and the entry on top of the
    history is never the current page. *)
Theorem session_nav_ok (b : Browser) (w0 : world) (cmds : list command) :
  startup b = Return () w0 →
  pages (pm (run cmds w0)) = initializePages ∧
  currentPage (pm (run cmds w0))
  ∈ ({[ "landing"; "menu"; "gallery"; "reasons"; "wishes"; "games" ]} : gset string) ∧
  (∀ p, p ∈ pageHistory (pm (run cmds w0)) →
        p ∈ ({[ "landing"; "menu"; "gallery"; "reasons"; "wishes"; "games" ]}
             : gset string)) ∧
  last (pageHistory (pm (run cmds w0))) ≠ Some (currentPage (pm (run cmds w0))).
Proof.
  intros H. destruct (run_nav_ok cmds w0 (startup_nav_ok _ _ H)) as (N1 & N2 & N3 & N4).
  split_and!; [done | | | done].
  - rewrite <- registered_ids. by apply elem_of_dom.
  - intros p Hp. rewrite <- registered_ids. apply elem_of_dom.
    by eapply Forall_forall in N3.
Qed.

Lemma session_nav_ok_witness :
  startup fresh_browser = Return () session_start ∧
  last (pageHistory (pm (run [NavigateTo "gallery" "slide"; GoBack] session_start)))
  ≠ Some (currentPage (pm (run [NavigateTo "gallery" "slide"; GoBack] session_start))).
Proof.
  assert (H : startup fresh_browser = Return () session_start) by reflexivity.
  split; [exact H|].
  exact (proj2 (proj2 (proj2
    (session_nav_ok fresh_browser session_start
       [NavigateTo "gallery" "slide"; GoBack] H)))).
Defined.

Lemma call_history_grows c w :
  nav_ok w →
  (length (pageHistory (pm w)) ≤ length (pageHistory (pm (final (call c w)))))%nat.
Proof.
  intros Hn.
  assert (∀ w', tracked w w' →
            (length (pageHistory (pm w)) ≤ length (pageHistory (pm w')))%nat) as Ht.
  { intros w' [(_ & -> & _) _]. done. }
  destruct c; simpl; rewrite ?final_seq_ret.
  - apply Ht, markPageVisited_tracked.
  - apply Ht, markInteractionComplete_tracked.
  - apply Ht, unlockSecret_tracked.
  - apply Ht, addCollectible_tracked.
  - apply Ht, unlockAchievement_tracked.
  - destruct (pages (pm w) !! pageId) as [ttl|] eqn:E.
    + destruct (navigateTo_registered_nav w pageId transitionType) as (_ & -> & _);
        [by rewrite E|].
      destruct (String.eqb _ _); [done|]. rewrite length_app. lia.
    + by apply Ht, navigateTo_unregistered_tracked.
  - destruct (list_snoc_cases (pageHistory (pm w))) as [H|(h & x & H)].
    + by rewrite goBack_empty.
    + destruct (goBack_final w h x Hn H) as (_ & -> & _).
      rewrite H, !length_app. done.
  - destruct (onKeydown_tracked w key (nav_ok_secret w Hn)) as [(_ & -> & _) _].
    by destruct w as [[] ? ?].
  - by destruct w as [[] ? []].
Qed.

Lemma run_app cmds more w : run (cmds ++ more) w = run more (run cmds w).
Proof. unfold run. by rewrite foldl_app. Qed.

Lemma run_history_grows cmds w :
  nav_ok w →
  (length (pageHistory (pm w)) ≤ length (pageHistory (pm (run cmds w))))%nat.
Proof.
  intros Hn. induction cmds as [|c cmds IH] using rev_ind; [done|].
  rewrite run_snoc. etransitivity; [exact IH|].
  apply call_history_grows. by apply run_nav_ok.
Qed.

(** X6: in a session the history never gets shorter, whatever follows; in
    particular [goBack] leaves its length as it is: with a non-empty
    history it makes the entry on top the current page and puts the page
    left in its place.  Two [goBack] in a row therefore restore the
    current page and the history. *)
Theorem session_history_never_shrinks
    (b : Browser) (w0 : world) (cmds more : list command) :
  startup b = Return () w0 →
  (length (pageHistory (pm (run cmds w0)))
   ≤ length (pageHistory (pm (run (cmds ++ more) w0))))%nat ∧
  length (pageHistory (pm (final (goBack (run cmds w0)))))
  = length (pageHistory (pm (run cmds w0))) ∧
  (∀ h previousPage,
     pageHistory (pm (run cmds w0)) = (h ++ [previousPage])%list →
     currentPage (pm (final (goBack (run cmds w0)))) = previousPage ∧
     pageHistory (pm (final (goBack (run cmds w0))))
     = (h ++ [currentPage (pm (run cmds w0))])%list) ∧
  currentPage (pm (final (goBack (final (goBack (run cmds w0))))))
  = currentPage (pm (run cmds w0)) ∧
  pageHistory (pm (final (goBack (final (goBack (run cmds w0))))))
  = pageHistory (pm (run cmds w0)).
Proof.
  intros Hs. pose proof (run_nav_ok cmds w0 (startup_nav_ok _ _ Hs)) as Hn.
  set (w := run cmds w0) in *.
  assert (∀ h x, pageHistory (pm w) = (h ++ [x])%list →
            currentPage (pm (final (goBack w))) = x ∧
            pageHistory (pm (final (goBack w))) = (h ++ [currentPage (pm w)])%list ∧
            nav_ok (final (goBack w))) as Hback.
  { intros h x H. by destruct (goBack_final w h x Hn H) as (? & ? & _ & ?). }
  split_and!.
  - rewrite run_app. by apply run_history_grows.
  - destruct (list_snoc_cases (pageHistory (pm w))) as [H|(h & x & H)].
    + by rewrite goBack_empty.
    + destruct (Hback h x H) as (_ & -> & _). by rewrite H, !length_app.
  - intros h x H. by destruct (Hback h x H) as (? & ? & _).
  - destruct (list_snoc_cases (pageHistory (pm w))) as [H|(h & x & H)].
    + by rewrite !goBack_empty by (by rewrite ?goBack_empty).
    + destruct (Hback h x H) as (E1 & E2 & Hn1).
      by destruct (goBack_final _ _ _ Hn1 E2) as (-> & _).
  - destruct (list_snoc_cases (pageHistory (pm w))) as [H|(h & x & H)].
    + by rewrite !goBack_empty by (by rewrite ?goBack_empty).
    + destruct (Hback h x H) as (E1 & E2 & Hn1).
      destruct (goBack_final _ _ _ Hn1 E2) as (_ & -> & _). by rewrite E1, H.
Qed.

Lemma session_history_never_shrinks_witness :
  startup fresh_browser = Return () session_start ∧
  currentPage (pm (final (goBack (final (goBack
    (run [NavigateTo "gallery" "slide"; NavigateTo "wishes" "slide"] session_start))))))
  = "wishes".
Proof.
  assert (H : startup fresh_browser = Return () session_start) by reflexivity.
  split; [exact H|].
  exact (proj1 (proj2 (proj2 (proj2
    (session_history_never_shrinks fresh_browser session_start
       [NavigateTo "gallery" "slide"; NavigateTo "wishes" "slide"] [] H))))).
Defined.

(** ** The key buffer *)

Lemma call_buffer c w :
  nav_ok w →
  konami_buffer (final (call c w))
  = match c with
    | Keydown key => push_key (konami_buffer w) key
    | _ => konami_buffer w
    end.
Proof.
  intros Hn.
  assert (∀ w', tracked w w' → konami_buffer w' = konami_buffer w) as Ht.
  { by intros w' [(_ & _ & _ & -> & _) _]. }
  destruct c; simpl; rewrite ?final_seq_ret.
  - apply Ht, markPageVisited_tracked.
  - apply Ht, markInteractionComplete_tracked.
  - apply Ht, unlockSecret_tracked.
  - apply Ht, addCollectible_tracked.
  - apply Ht, unlockAchievement_tracked.
  - destruct (pages (pm w) !! pageId) as [ttl|] eqn:E.
    + by destruct (navigateTo_registered_nav w pageId transitionType)
        as (_ & _ & _ & ->); [by rewrite E|].
    + by apply Ht, navigateTo_unregistered_tracked.
  - destruct (list_snoc_cases (pageHistory (pm w))) as [H|(h & x & H)].
    + by rewrite goBack_empty.
    + by destruct (goBack_final w h x Hn H) as (_ & _ & -> & _).
  - by destruct (onKeydown_tracked w key (nav_ok_secret w Hn))
      as [(_ & _ & _ & -> & _) _].
  - by destruct w as [[] ? []].
Qed.

Lemma run_buffer cmds w :
  nav_ok w →
  konami_buffer (run cmds w) = foldl push_key (konami_buffer w) (keys_of cmds).
Proof.
  intros Hn. induction cmds as [|c cmds IH] using rev_ind; [done|].
  rewrite run_snoc, call_buffer by (by apply run_nav_ok).
  unfold keys_of in *. rewrite omap_app, foldl_app, <- IH.
  by destruct c.
Qed.

Lemma push_key_last10 (l : list string) key :
  push_key (last10 l) key = last10 (l ++ [key]).
Proof.
  unfold push_key, last10. cbv zeta.
  rewrite !length_app, length_drop. simpl length.
  destruct (Nat.ltb_spec 10 (length l - (length l - 10) + 1)) as [H|H].
  - replace (length l + 1 - 10)%nat with (S (length l - 10)) by lia.
    rewrite drop_app_le by lia.
    destruct (drop (length l - 10) l) as [|x r] eqn:E.
    { apply (f_equal length) in E. rewrite length_drop in E. simpl in E. lia. }
    simpl. f_equal.
    change r with (drop 1 (x :: r)). rewrite <- E, drop_drop.
    f_equal. lia.
  - replace (length l + 1 - 10)%nat with 0%nat by lia.
    replace (length l - 10)%nat with 0%nat by lia. done.
Qed.

Lemma foldl_push_key keys : foldl push_key [] keys = last10 keys.
Proof.
  induction keys as [|key keys IH] using rev_ind; [done|].
  by rewrite foldl_app, IH, <- push_key_last10.
Qed.

Lemma every_key_spec (code buffer : list string) :
  every_key code buffer = true ↔
  toLowerCase <$> take (length code) buffer = toLowerCase <$> code.
Proof.
  revert buffer. induction code as [|k code IH]; intros buffer; simpl.
  { by destruct buffer. }
  destruct buffer as [|b buffer]; simpl; [done|].
  rewrite andb_true_iff, IH, String.eqb_eq. split.
  - intros [H1 H2]. f_equal; assumption.
  - intros [= H1 H2]. split; assumption.
Qed.

Lemma length_last10 {A} (l : list A) : (length (last10 l) ≤ 10)%nat.
Proof. unfold last10. rewrite length_drop. lia. Qed.

(** X7: in every session the key buffer of the Konami handler holds the
    last ten keys pressed (all of them while there are fewer), whatever
    else happened in between.  The handler fires on a key exactly when
    the last ten keys, that one included, spell the code up to the case
    of ASCII letters; then [secret-explorer] is unlocked, and otherwise
    the key changes nothing but the buffer. *)
Theorem session_konami_buffer (b : Browser) (w0 : world) (cmds : list command)
    (key : string) :
  startup b = Return () w0 →
  konami_buffer (run cmds w0) = last10 (keys_of cmds) ∧
  (length (konami_buffer (run cmds w0)) ≤ 10)%nat ∧
  (every_key konami_code (push_key (konami_buffer (run cmds w0)) key) = true ↔
   toLowerCase <$> last10 (keys_of cmds ++ [key]) = toLowerCase <$> konami_code) ∧
  (every_key konami_code (push_key (konami_buffer (run cmds w0)) key) = true →
   is_Some (achievements (tracker (final (onKeydown key (run cmds w0))))
            !! "secret-explorer")) ∧
  (every_key konami_code (push_key (konami_buffer (run cmds w0)) key) = false →
   onKeydown key (run cmds w0)
   = Return () {| pm := pm (run cmds w0);
                  konami_buffer := last10 (keys_of cmds ++ [key]);
                  env := env (run cmds w0) |}).
Proof.
  intros Hs. pose proof (startup_nav_ok _ _ Hs) as Hn0.
  assert (konami_buffer (run cmds w0) = last10 (keys_of cmds)) as Hb.
  { rewrite run_buffer by done.
    replace (konami_buffer w0) with (@nil string); [apply foldl_push_key|].
    revert Hs. unfold startup, new_PageManager, loadProgress.
    destruct b as [[[|raw|d]|] q c k dp l]; unfold_M; simpl; by intros [= <-]. }
  pose proof (run_nav_ok cmds w0 Hn0) as Hn.
  set (w := run cmds w0) in *.
  rewrite Hb, push_key_last10.
  split_and!.
  - done.
  - apply length_last10.
  - rewrite every_key_spec.
    rewrite take_ge by (change (length konami_code) with 10; apply length_last10).
    done.
  - intros Hfire. unfold onKeydown.
    erewrite bind_Return; [|reflexivity]. cbv zeta.
    erewrite bind_Return; [|reflexivity].
    fold (push_key (konami_buffer w) key). rewrite Hb, push_key_last10, Hfire.
    set (w1 := {| pm := pm w; konami_buffer := _; env := env w |}).
    unfold konami_unlock.
    erewrite bind_Return; [|reflexivity].
    set (w2 := with_env _ w1).
    pose proof (unlockAchievement_final_unlocked w2 "secret-explorer") as [r Hr].
    rewrite final_bind.
    destruct (unlockAchievement "secret-explorer" w2) as [v w3|e w3] eqn:E2;
      simpl in Hr; [|by exists r].
    rewrite final_seq_ret.
    pose proof (navigateTo_session "secret" "slide" w3) as [_ (_ & _ & _ & Hsub & _)].
    exists r. eapply lookup_weaken; eauto.
  - intros Hquiet. unfold onKeydown.
    erewrite bind_Return; [|reflexivity]. cbv zeta.
    erewrite bind_Return; [|reflexivity].
    fold (push_key (konami_buffer w) key). rewrite Hb, push_key_last10, Hquiet.
    reflexivity.
Qed.

Lemma session_konami_buffer_witness :
  startup fresh_browser = Return () session_start ∧
  konami_buffer (run [Keydown "x"; GoBack; Keydown "ArrowUp"] session_start)
  = ["x"; "ArrowUp"].
Proof.
  assert (H : startup fresh_browser = Return () session_start) by reflexivity.
  split; [exact H|].
  exact (proj1 (session_konami_buffer fresh_browser session_start
                  [Keydown "x"; GoBack; Keydown "ArrowUp"] "a" H)).
Defined.

(** ** Secrets, interactions and collectibles *)

(** X8: [unlockSecret], called twice with a secret that is not unlocked yet
    and a store that takes the write, returns [true] and then [false];
    the secret is added, the set is one larger, the snapshot holding it
    is what the store keeps, and the second call changes nothing. *)
Theorem unlockSecret_idempotent (w : world) (secretId : string) :
  secretId ∉ unlockedSecrets (tracker w) →
  quota_exceeded (env w) = false →
  ∃ w1,
    unlockSecret secretId w = Return true w1 ∧
    unlockSecret secretId w1 = Return false w1 ∧
    unlockedSecrets (tracker w1) = {[secretId]} ∪ unlockedSecrets (tracker w) ∧
    size (unlockedSecrets (tracker w1)) = S (size (unlockedSecrets (tracker w))) ∧
    localStorage (env w1)
    = Some (Document (snapshot (tracker w1) (clock (env w) (ticks (env w))))) ∧
    visitedPages (tracker w1) = visitedPages (tracker w) ∧
    achievements (tracker w1) = achievements (tracker w).
Proof.
  intros Hx Hq. unfold unlockSecret.
  erewrite bind_Return; [|reflexivity].
  rewrite bool_decide_eq_false_2 by done. cbn [negb].
  erewrite bind_Return; [|reflexivity].
  set (w' := with_tracker _ w).
  assert (quota_exceeded (env w') = false) as Hq'
    by (by destruct w as [[? ? ? []] ? []]).
  erewrite bind_Return by (by apply saveProgress_ok).
  eexists. split; [reflexivity|].
  assert (secretId ∈ ({[secretId]} ∪ unlockedSecrets (tracker w) : gset string))
    as Hin by (apply elem_of_union_l, elem_of_singleton; done).
  split_and!.
  - erewrite bind_Return; [|reflexivity].
    rewrite bool_decide_eq_true_2; [done|].
    by destruct w as [[? ? ? []] ? []].
  - by destruct w as [[? ? ? []] ? []].
  - transitivity (size ({[secretId]} ∪ unlockedSecrets (tracker w))).
    + by destruct w as [[? ? ? []] ? []].
    + rewrite size_union by (apply disjoint_singleton_l; done).
      by rewrite size_singleton.
  - by destruct w as [[? ? ? []] ? []].
  - by destruct w as [[? ? ? []] ? []].
  - by destruct w as [[? ? ? []] ? []].
Qed.

Lemma unlockSecret_idempotent_witness :
  ("konami" ∉ unlockedSecrets (tracker session_start)) ∧
  (quota_exceeded (env session_start) = false) ∧
  ∃ w1,
    unlockSecret "konami" session_start = Return true w1 ∧
    unlockSecret "konami" w1 = Return false w1.
Proof.
  assert (H1 : "konami" ∉ unlockedSecrets (tracker session_start)) by compute_done.
  assert (H2 : quota_exceeded (env session_start) = false) by reflexivity.
  split_and!; [exact H1 | exact H2 |].
  destruct (unlockSecret_idempotent session_start "konami" H1 H2)
    as (w1 & E1 & E2 & _).
  exists w1. split; [exact E1 | exact E2].
Defined.

Lemma markInteractionComplete_plain w pageId interactionId j :
  completedInteractions (tracker w) !! pageId = Some (PlainData j) →
  markInteractionComplete pageId interactionId w = Throw TypeError w.
Proof.
  intros E. unfold markInteractionComplete, add_member.
  erewrite bind_Return; [|reflexivity].
  rewrite bool_decide_eq_true_2 by (rewrite E; by eexists). cbn [negb].
  erewrite bind_Return; [|reflexivity].
  erewrite bind_Return; [|reflexivity]. by rewrite E.
Qed.

Lemma markInteractionComplete_present w pageId interactionId members :
  completedInteractions (tracker w) !! pageId = Some (LiveSet members) →
  interactionId ∈ members →
  markInteractionComplete pageId interactionId w = Return false w.
Proof.
  intros E Hx. unfold markInteractionComplete, add_member.
  erewrite bind_Return; [|reflexivity].
  rewrite bool_decide_eq_true_2 by (rewrite E; by eexists). cbn [negb].
  erewrite bind_Return; [|reflexivity].
  erewrite bind_Return; [|reflexivity]. rewrite E.
  by rewrite bool_decide_eq_true_2.
Qed.

Lemma markInteractionComplete_live w pageId interactionId members :
  completedInteractions (tracker w) !! pageId = Some (LiveSet members) →
  interactionId ∉ members →
  markInteractionComplete pageId interactionId w
  = (saveProgress;; mret true)
      (with_tracker (with_interactions
         (<[pageId := LiveSet ({[interactionId]} ∪ members)]>
            (completedInteractions (tracker w)))) w).
Proof.
  intros E Hx. unfold markInteractionComplete, add_member.
  erewrite bind_Return; [|reflexivity].
  rewrite bool_decide_eq_true_2 by (rewrite E; by eexists). cbn [negb].
  erewrite bind_Return; [|reflexivity].
  erewrite bind_Return; [|reflexivity]. rewrite E.
  rewrite bool_decide_eq_false_2 by done. cbn [negb].
  erewrite bind_Return; [reflexivity|].
  by destruct w as [[? ? ? []] ? ?].
Qed.

Lemma markInteractionComplete_new w pageId interactionId :
  completedInteractions (tracker w) !! pageId = None →
  markInteractionComplete pageId interactionId w
  = (saveProgress;; mret true)
      (with_tracker (with_interactions
         (<[pageId := LiveSet {[interactionId]}]>
            (completedInteractions (tracker w)))) w).
Proof.
  intros E. unfold markInteractionComplete, add_member.
  erewrite bind_Return; [|reflexivity].
  rewrite bool_decide_eq_false_2 by (rewrite E; by intros [? ?]). cbn [negb].
  erewrite bind_Return; [|reflexivity].
  erewrite bind_Return; [|reflexivity].
  replace (completedInteractions (tracker _) !! pageId)
    with (Some (LiveSet ∅))
    by (destruct w as [[? ? ? []] ? ?]; simpl; by rewrite lookup_insert_eq).
  rewrite bool_decide_eq_false_2 by (apply not_elem_of_empty). cbn [negb].
  erewrite bind_Return; [reflexivity|].
  destruct w as [[? ? ? []] ? ?]. unfold_M. unfold with_interactions. simpl.
  by rewrite insert_insert_eq, (right_id_L ∅ (∪)).
Qed.

Lemma addCollectible_plain w pageId collectibleId j :
  collectibles (tracker w) !! pageId = Some (PlainData j) →
  addCollectible pageId collectibleId w = Throw TypeError w.
Proof.
  intros E. unfold addCollectible, add_member.
  erewrite bind_Return; [|reflexivity].
  rewrite bool_decide_eq_true_2 by (rewrite E; by eexists). cbn [negb].
  erewrite bind_Return; [|reflexivity].
  erewrite bind_Return; [|reflexivity]. by rewrite E.
Qed.

Lemma addCollectible_present w pageId collectibleId members :
  collectibles (tracker w) !! pageId = Some (LiveSet members) →
  collectibleId ∈ members →
  addCollectible pageId collectibleId w = Return false w.
Proof.
  intros E Hx. unfold addCollectible, add_member.
  erewrite bind_Return; [|reflexivity].
  rewrite bool_decide_eq_true_2 by (rewrite E; by eexists). cbn [negb].
  erewrite bind_Return; [|reflexivity].
  erewrite bind_Return; [|reflexivity]. rewrite E.
  by rewrite bool_decide_eq_true_2.
Qed.

Lemma addCollectible_live w pageId collectibleId members :
  collectibles (tracker w) !! pageId = Some (LiveSet members) →
  collectibleId ∉ members →
  addCollectible pageId collectibleId w
  = (saveProgress;; mret true)
      (with_tracker (with_collectibles
         (<[pageId := LiveSet ({[collectibleId]} ∪ members)]>
            (collectibles (tracker w)))) w).
Proof.
  intros E Hx. unfold addCollectible, add_member.
  erewrite bind_Return; [|reflexivity].
  rewrite bool_decide_eq_true_2 by (rewrite E; by eexists). cbn [negb].
  erewrite bind_Return; [|reflexivity].
  erewrite bind_Return; [|reflexivity]. rewrite E.
  rewrite bool_decide_eq_false_2 by done. cbn [negb].
  erewrite bind_Return; [reflexivity|].
  by destruct w as [[? ? ? []] ? ?].
Qed.

Lemma addCollectible_new w pageId collectibleId :
  collectibles (tracker w) !! pageId = None →
  addCollectible pageId collectibleId w
  = (saveProgress;; mret true)
      (with_tracker (with_collectibles
         (<[pageId := LiveSet {[collectibleId]}]> (collectibles (tracker w)))) w).
Proof.
  intros E. unfold addCollectible, add_member.
  erewrite bind_Return; [|reflexivity].
  rewrite bool_decide_eq_false_2 by (rewrite E; by intros [? ?]). cbn [negb].
  erewrite bind_Return; [|reflexivity].
  erewrite bind_Return; [|reflexivity].
  replace (collectibles (tracker _) !! pageId)
    with (Some (LiveSet ∅))
    by (destruct w as [[? ? ? []] ? ?]; simpl; by rewrite lookup_insert_eq).
  rewrite bool_decide_eq_false_2 by (apply not_elem_of_empty). cbn [negb].
  erewrite bind_Return; [reflexivity|].
  destruct w as [[? ? ? []] ? ?]. unfold_M. unfold with_collectibles. simpl.
  by rewrite insert_insert_eq, (right_id_L ∅ (∪)).
Qed.

(** X9: [markInteractionComplete], on a page for which the tracker holds a
    set or nothing yet, with an interaction that is not recorded and a
    store that takes the write, returns [true]; the page then holds the
    old members plus the new one, one more than before, and the other
    pages are as they were; a second call with the same ids returns
    [false] and changes nothing. *)
Theorem markInteractionComplete_idempotent (w : world) (pageId interactionId : string) :
  (∀ j, completedInteractions (tracker w) !! pageId ≠ Some (PlainData j)) →
  interactionId ∉ members_of (completedInteractions (tracker w)) pageId →
  quota_exceeded (env w) = false →
  ∃ w1,
    markInteractionComplete pageId interactionId w = Return true w1 ∧
    markInteractionComplete pageId interactionId w1 = Return false w1 ∧
    completedInteractions (tracker w1)
    = <[pageId := LiveSet ({[interactionId]}
                           ∪ members_of (completedInteractions (tracker w)) pageId)]>
        (completedInteractions (tracker w)) ∧
    recorded (tracker w1) pageId = S (recorded (tracker w) pageId) ∧
    localStorage (env w1)
    = Some (Document (snapshot (tracker w1) (clock (env w) (ticks (env w))))).
Proof.
  intros Hp Hx Hq.
  set (members := members_of (completedInteractions (tracker w)) pageId) in *.
  set (m1 := <[pageId := LiveSet ({[interactionId]} ∪ members)]>
               (completedInteractions (tracker w))).
  set (w' := with_tracker (with_interactions m1) w).
  assert (markInteractionComplete pageId interactionId w
          = (saveProgress;; mret true) w') as E1.
  { subst w' m1 members. unfold members_of in *.
    destruct (completedInteractions (tracker w) !! pageId) as [[s|j]|] eqn:E.
    - by apply markInteractionComplete_live.
    - by destruct (Hp j).
    - rewrite markInteractionComplete_new by done.
      by rewrite (right_id_L ∅ (∪)). }
  assert (recorded (tracker w) pageId = size members) as Hrec.
  { subst members. unfold recorded, members_of.
    by destruct (completedInteractions (tracker w) !! pageId) as [[|]|]. }
  exists (with_env (saved (tracker w')) w').
  assert (completedInteractions (tracker (with_env (saved (tracker w')) w')) = m1)
    as Hci by (by destruct w as [[? ? ? []] ? []]).
  split_and!.
  - rewrite E1. erewrite bind_Return; [done|].
    apply saveProgress_ok. by destruct w as [[? ? ? []] ? []].
  - eapply markInteractionComplete_present.
    + rewrite Hci. apply lookup_insert_eq.
    + apply elem_of_union_l, elem_of_singleton. done.
  - done.
  - rewrite Hrec. unfold recorded. rewrite Hci. subst m1. rewrite lookup_insert_eq.
    rewrite size_union by (apply disjoint_singleton_l; done).
    by rewrite size_singleton.
  - by destruct w as [[? ? ? []] ? []].
Qed.

Lemma markInteractionComplete_idempotent_witness :
  (∀ j, completedInteractions (tracker session_start) !! "reasons"
        ≠ Some (PlainData j)) ∧
  ("reason-1" ∉ members_of (completedInteractions (tracker session_start)) "reasons") ∧
  (quota_exceeded (env session_start) = false) ∧
  ∃ w1,
    markInteractionComplete "reasons" "reason-1" session_start = Return true w1 ∧
    markInteractionComplete "reasons" "reason-1" w1 = Return false w1 ∧
    recorded (tracker w1) "reasons" = 1.
Proof.
  assert (H1 : ∀ j, completedInteractions (tracker session_start) !! "reasons"
                    ≠ Some (PlainData j)) by (intros j; by vm_compute).
  assert (H2 : "reason-1"
               ∉ members_of (completedInteractions (tracker session_start)) "reasons")
    by compute_done.
  assert (H3 : quota_exceeded (env session_start) = false) by reflexivity.
  split_and!; [exact H1 | exact H2 | exact H3 |].
  destruct (markInteractionComplete_idempotent session_start "reasons" "reason-1"
              H1 H2 H3) as (w1 & E1 & E2 & _ & E4 & _).
  exists w1. split_and!; [exact E1 | exact E2 | exact E4].
Defined.





(** X10: [addCollectible] follows the same pattern on [collectibles]: the
    first call with a collectible the page's set does not hold returns
    [true] and adds exactly that member, persisting the snapshot; the
    second returns [false] in the world the first one left. *)
Theorem addCollectible_idempotent (w : world) (pageId collectibleId : string) :
  (∀ j, collectibles (tracker w) !! pageId ≠ Some (PlainData j)) →
  collectibleId ∉ members_of (collectibles (tracker w)) pageId →
  quota_exceeded (env w) = false →
  ∃ w1,
    addCollectible pageId collectibleId w = Return true w1 ∧
    addCollectible pageId collectibleId w1 = Return false w1 ∧
    collectibles (tracker w1)
    = <[pageId := LiveSet ({[collectibleId]}
                           ∪ members_of (collectibles (tracker w)) pageId)]>
        (collectibles (tracker w)) ∧
    completedInteractions (tracker w1) = completedInteractions (tracker w) ∧
    localStorage (env w1)
    = Some (Document (snapshot (tracker w1) (clock (env w) (ticks (env w))))).
Proof.
  intros Hp Hx Hq.
  set (members := members_of (collectibles (tracker w)) pageId) in *.
  set (m1 := <[pageId := LiveSet ({[collectibleId]} ∪ members)]>
               (collectibles (tracker w))).
  set (w' := with_tracker (with_collectibles m1) w).
  assert (addCollectible pageId collectibleId w = (saveProgress;; mret true) w')
    as E1.
  { subst w' m1 members. unfold members_of in *.
    destruct (collectibles (tracker w) !! pageId) as [[s|j]|] eqn:E.
    - by apply addCollectible_live.
    - by destruct (Hp j).
    - rewrite addCollectible_new by done.
      by rewrite (right_id_L ∅ (∪)). }
  exists (with_env (saved (tracker w')) w').
  assert (collectibles (tracker (with_env (saved (tracker w')) w')) = m1)
    as Hci by (by destruct w as [[? ? ? []] ? []]).
  split_and!.
  - rewrite E1. erewrite bind_Return; [done|].
    apply saveProgress_ok. by destruct w as [[? ? ? []] ? []].
  - eapply addCollectible_present.
    + rewrite Hci. apply lookup_insert_eq.
    + apply elem_of_union_l, elem_of_singleton. done.
  - done.
  - by destruct w as [[? ? ? []] ? []].
  - by destruct w as [[? ? ? []] ? []].
Qed.

Lemma addCollectible_idempotent_witness :
  (∀ j, collectibles (tracker session_start) !! "wishes" ≠ Some (PlainData j)) ∧
  ("gem-1" ∉ members_of (collectibles (tracker session_start)) "wishes") ∧
  (quota_exceeded (env session_start) = false) ∧
  ∃ w1,
    addCollectible "wishes" "gem-1" session_start = Return true w1 ∧
    addCollectible "wishes" "gem-1" w1 = Return false w1.
Proof.
  assert (H1 : ∀ j, collectibles (tracker session_start) !! "wishes"
                    ≠ Some (PlainData j)) by (intros j; by vm_compute).
  assert (H2 : "gem-1" ∉ members_of (collectibles (tracker session_start)) "wishes")
    by compute_done.
  assert (H3 : quota_exceeded (env session_start) = false) by reflexivity.
  split_and!; [exact H1 | exact H2 | exact H3 |].
  destruct (addCollectible_idempotent session_start "wishes" "gem-1" H1 H2 H3)
    as (w1 & E1 & E2 & _).
  exists w1. split; [exact E1 | exact E2].
Defined.

(** ** The start of the script *)

Lemma classic_unparseable b :
  (∃ raw, localStorage b = Some (Unparseable raw)) ∨
  ¬ ∃ raw, localStorage b = Some (Unparseable raw).
Proof.
  destruct (localStorage b) as [[|raw|d]|]; [right|left|right|right];
    try (by eexists); by intros (raw' & [= ]).
Qed.

Lemma startup_unparseable b raw :
  localStorage b = Some (Unparseable raw) → ∃ w, startup b = Throw SyntaxError w.
Proof.
  destruct b as [st q c k dp l]. simpl. intros ->.
  unfold startup, new_PageManager, loadProgress. unfold_M. simpl. by eexists.
Qed.

Lemma startup_parseable b :
  (¬ ∃ raw, localStorage b = Some (Unparseable raw)) →
  startup b =
  Return () {| pm := {| currentPage := "landing"; pageHistory := [];
                        pages := initializePages;
                        progressTracker := match localStorage b with
                                           | Some (Document d) => loaded d
                                           | _ => empty_tracker
                                           end |};
               konami_buffer := []; env := b |}.
Proof.
  intros H. destruct (localStorage b) as [[|raw|d]|] eqn:E.
  - apply startup_nothing_stored. by rewrite E.
  - destruct H. by eexists.
  - by apply startup_document.
  - apply startup_nothing_stored. by rewrite E.
Qed.

Lemma startup_returned b w0 :
  startup b = Return () w0 →
  w0 = {| pm := {| currentPage := "landing"; pageHistory := [];
                   pages := initializePages;
                   progressTracker := match localStorage b with
                                      | Some (Document d) => loaded d
                                      | _ => empty_tracker
                                      end |};
          konami_buffer := []; env := b |}.
Proof.
  intros H.
  destruct (classic_unparseable b) as [(raw & E)|Hn].
  - destruct (startup_unparseable b raw E) as (w & Hw). congruence.
  - rewrite startup_parseable in H by done. by injection H as <-.
Qed.

(** X13: how the script starts.  With nothing stored, or the empty string,
    the constructor returns with an empty tracker.  With a stored text
    that does not parse, the [SyntaxError] of [JSON.parse] reaches the
    caller.  With a stored text that parses to a document of the layout
    [saveProgress] writes (any field possibly missing), it returns with
    the tracker [loadProgress] builds from that document.  Whenever it
    returns, the visitor is on landing with an empty history and an empty
    key buffer, the six pages are registered, and the browser (the stored
    text included) is untouched. *)
Theorem startup_outcome (b : Browser) :
  (localStorage b = None ∨ localStorage b = Some EmptyText →
     ∃ w0, startup b = Return () w0 ∧ tracker w0 = empty_tracker) ∧
  (∀ raw, localStorage b = Some (Unparseable raw) →
     ∃ w, startup b = Throw SyntaxError w) ∧
  (∀ d, localStorage b = Some (Document d) →
     ∃ w0, startup b = Return () w0 ∧ tracker w0 = loaded d) ∧
  (∀ w0, startup b = Return () w0 →
     currentPage (pm w0) = "landing" ∧
     pageHistory (pm w0) = [] ∧
     konami_buffer w0 = [] ∧
     pages (pm w0) = initializePages ∧
     env w0 = b).
Proof.
  split_and!.
  - intros H. eexists. split.
    + apply startup_parseable. intros (raw & E). destruct H; congruence.
    + destruct H as [-> | ->]; reflexivity.
  - apply startup_unparseable.
  - intros d H. eexists. split.
    + apply startup_parseable. intros (raw & E). congruence.
    + rewrite H. reflexivity.
  - intros w0 H. by rewrite (startup_returned b w0 H).
Qed.

Lemma startup_outcome_witness :
  (∃ w, startup corrupt_browser = Throw SyntaxError w) ∧
  startup fresh_browser = Return () session_start ∧
  currentPage (pm session_start) = "landing" ∧
  env session_start = fresh_browser.
Proof.
  assert (H : startup fresh_browser = Return () session_start) by reflexivity.
  destruct (proj2 (proj2 (proj2 (startup_outcome fresh_browser))) session_start H)
    as (E1 & _ & _ & _ & E5).
  split_and!; [|exact H | exact E1 | exact E5].
  exact (proj1 (proj2 (startup_outcome corrupt_browser)) "{visitedPages:" eq_refl).
Defined.

(** ** Achievement records are filed under their own id *)

Lemma keyed_unlocks w w' :
  unlocks (λ _, True) w w' → keyed_by_id (tracker w) → keyed_by_id (tracker w').
Proof.
  intros H Hk k r Hr. destruct (H k r Hr) as [H'|[_ H']]; [by apply Hk|done].
Qed.

Lemma loaded_keyed d : keyed_by_id (loaded d).
Proof.
  unfold keyed_by_id, loaded. simpl.
  induction (default [] (doc_achievements d)) as [|a l IH] using rev_ind.
  { intros k r. change (Map_of_entries _) with (∅ : gmap string AchievementRecord).
    by rewrite lookup_empty. }
  intros k r. rewrite fmap_app.
  change ((λ a0, (a_id a0, a0)) <$> [a]) with [(a_id a, a)].
  rewrite Map_of_entries_snoc.
  destruct (decide (a_id a = k)) as [<-|Hne].
  - rewrite lookup_insert_eq. by intros [= <-].
  - rewrite lookup_insert_ne by done. apply IH.
Qed.

Lemma startup_keyed b w0 : startup b = Return () w0 → keyed_by_id (tracker w0).
Proof.
  intros H. rewrite (startup_returned b w0 H).
  change (keyed_by_id (match localStorage b with
                       | Some (Document d) => loaded d
                       | _ => empty_tracker
                       end)).
  destruct (localStorage b) as [[| |d]|]; try apply loaded_keyed;
    intros k r Hr;
    change ((∅ : gmap string AchievementRecord) !! k = Some r) in Hr;
    by rewrite lookup_empty in Hr.
Qed.

Lemma preserves_and {A} (R1 R2 : world → world → Prop) (m : M A) :
  preserves R1 m → preserves R2 m → preserves (λ w w', R1 w w' ∧ R2 w w') m.
Proof. intros H1 H2 w. split; [apply H1|apply H2]. Qed.

(** A relation that only depends on the trackers, and that holds whenever
    the tracker made progress without touching the achievements, is kept
    by every command once the two places that unlock achievements keep
    it. *)
Lemma call_tracker_relation (R : world → world → Prop) c :
  (∀ w w', tracker w' = tracker w → R w w') →
  (∀ w1 w2 w3, R w1 w2 → R w2 w3 → R w1 w3) →
  (∀ w w', tracked w w' → ach_same w w' → R w w') →
  (∀ pageId, preserves R (trackProgress pageId)) →
  preserves R (unlockAchievement "secret-explorer") →
  match c with
  | UnlockAchievement achievementId => preserves R (unlockAchievement achievementId)
  | _ => True
  end →
  preserves R (call c).
Proof.
  intros Hsame Htrans Hquiet Htrack Hsecret Hc.
  apply call_handlers; try done.
  - intros w. by apply Hsame.
  - intros w f. apply Hsame. by destruct w.
  - intros w f Hf. apply Hsame. destruct w as [p ? ?]. simpl. apply Hf.
  - intros w b. by apply Hsame.
  - intros pageId w. apply Hquiet;
      [apply markPageVisited_tracked|apply markPageVisited_ach_same].
  - intros pageId interactionId w. apply Hquiet;
      [apply markInteractionComplete_tracked|apply markInteractionComplete_ach_same].
  - intros secretId w. apply Hquiet;
      [apply unlockSecret_tracked|apply unlockSecret_ach_same].
  - intros pageId collectibleId w. apply Hquiet;
      [apply addCollectible_tracked|apply addCollectible_ach_same].
Qed.

Lemma run_unlocks cmds w : unlocks (λ _, True) w (run cmds w).
Proof.
  apply run_related; [apply unlocks_refl | apply unlocks_trans |].
  intros c. apply call_tracker_relation.
  - intros w1 w2 H. apply ach_same_unlocks. unfold ach_same. by rewrite H.
  - apply unlocks_trans.
  - intros w1 w2 _ H. by apply ach_same_unlocks.
  - intros pageId w1. eapply unlocks_weaken; [|apply trackProgress_unlocks]. done.
  - intros w1. eapply unlocks_weaken; [|apply unlockAchievement_unlocks]. done.
  - destruct c; try done.
    intros w1. eapply unlocks_weaken; [|apply unlockAchievement_unlocks]. done.
Qed.

(** X14: in every session each achievement record is filed under its own
    id.  Hence, whenever the store holds the snapshot of the tracker as
    it is (as after any mutation whose write went through), a reload
    starts on landing with an empty history and with the same visited
    pages, the same secrets and the same achievement records; and every
    per-page container, of [completedInteractions] and of [collectibles],
    comes back as the plain data it was written as. *)
Theorem session_reload_restores
    (b : Browser) (w0 : world) (cmds : list command) (lastVisit : string) :
  startup b = Return () w0 →
  localStorage (env (run cmds w0))
  = Some (Document (snapshot (tracker (run cmds w0)) lastVisit)) →
  keyed_by_id (tracker (run cmds w0)) ∧
  ∃ w',
    reload (run cmds w0) = Return () w' ∧
    visitedPages (tracker w') = visitedPages (tracker (run cmds w0)) ∧
    unlockedSecrets (tracker w') = unlockedSecrets (tracker (run cmds w0)) ∧
    achievements (tracker w') = achievements (tracker (run cmds w0)) ∧
    getCompletionPercentage (tracker w')
    = getCompletionPercentage (tracker (run cmds w0)) ∧
    (∀ pageId c,
       completedInteractions (tracker (run cmds w0)) !! pageId = Some c →
       completedInteractions (tracker w') !! pageId
       = Some (PlainData (JSON_of_container c))) ∧
    (∀ pageId c,
       collectibles (tracker (run cmds w0)) !! pageId = Some c →
       collectibles (tracker w') !! pageId
       = Some (PlainData (JSON_of_container c))) ∧
    currentPage (pm w') = "landing" ∧
    pageHistory (pm w') = [].
Proof.
  intros Hs Hst.
  assert (keyed_by_id (tracker (run cmds w0))) as Hk.
  { eapply keyed_unlocks; [apply run_unlocks|]. by eapply startup_keyed. }
  split; [done|].
  destruct (reload_restored _ _ Hst Hk) as (w' & E1 & E2 & E3 & E4).
  exists w'. rewrite E2. split_and!; try done.
  - intros pageId c Hc. simpl. by rewrite lookup_fmap, Hc.
  - intros pageId c Hc. simpl. by rewrite lookup_fmap, Hc.
Qed.

Lemma session_reload_restores_witness :
  startup fresh_browser = Return () session_start ∧
  ∃ w',
    reload (run [NavigateTo "gallery" "slide"; UnlockSecret "konami"] session_start)
    = Return () w' ∧
    visitedPages (tracker w')
    = visitedPages (tracker
        (run [NavigateTo "gallery" "slide"; UnlockSecret "konami"] session_start)).
Proof.
  assert (H : startup fresh_browser = Return () session_start) by reflexivity.
  split; [exact H|].
  assert (H2 : localStorage (env
                 (run [NavigateTo "gallery" "slide"; UnlockSecret "konami"]
                    session_start))
               = Some (Document (snapshot (tracker
                   (run [NavigateTo "gallery" "slide"; UnlockSecret "konami"]
                      session_start)) (clock fresh_browser 3))))
    by (by vm_compute).
  destruct (session_reload_restores fresh_browser session_start
              [NavigateTo "gallery" "slide"; UnlockSecret "konami"]
              (clock fresh_browser 3) H H2) as (_ & w' & E1 & E2 & _).
  exists w'. split; [exact E1 | exact E2].
Defined.

(** ** What a reload does to the following session *)

Lemma containers_le_plain m m' pageId j :
  containers_le m m' → m !! pageId = Some (PlainData j) →
  m' !! pageId = Some (PlainData j).
Proof.
  intros H E. destruct (H _ _ E) as (c' & -> & Hc).
  destruct c' as [|j']; simpl in Hc; [done|]. by subst.
Qed.

Lemma session_reload b w0 cmds lastVisit :
  startup b = Return () w0 →
  localStorage (env (run cmds w0))
  = Some (Document (snapshot (tracker (run cmds w0)) lastVisit)) →
  ∃ w1, reload (run cmds w0) = Return () w1 ∧
        tracker w1 = restored (tracker (run cmds w0)).
Proof.
  intros Hs Hst.
  destruct (reload_restored _ _ Hst) as (w1 & E1 & E2 & _).
  { eapply keyed_unlocks; [apply run_unlocks|]. by eapply startup_keyed. }
  by exists w1.
Qed.

(** X11: in a session that began with nothing stored, once interactions
    are recorded for a page and the store holds the snapshot of the
    tracker, a reload puts the page out of order.  The reload returns,
    and in every world the following session can reach: the tracker
    holds the empty object for the page, every [markInteractionComplete]
    on the page throws a [TypeError] and changes nothing,
    [isPageCompleted] is [false], no interaction counts as recorded, and
    the snapshot the next save writes holds the empty object again. *)
Theorem stored_interactions_disable_page
    (b : Browser) (w0 : world) (cmds : list command) (lastVisit pageId : string)
    (members : gset string) :
  localStorage b = None →
  startup b = Return () w0 →
  localStorage (env (run cmds w0))
  = Some (Document (snapshot (tracker (run cmds w0)) lastVisit)) →
  completedInteractions (tracker (run cmds w0)) !! pageId = Some (LiveSet members) →
  ∃ w1,
    reload (run cmds w0) = Return () w1 ∧
    ∀ cmds' interactionId lastVisit',
      completedInteractions (tracker (run cmds' w1)) !! pageId
      = Some (PlainData EmptyObject) ∧
      markInteractionComplete pageId interactionId (run cmds' w1)
      = Throw TypeError (run cmds' w1) ∧
      isPageCompleted (tracker (run cmds' w1)) pageId = Boolean false ∧
      recorded (tracker (run cmds' w1)) pageId = 0 ∧
      ∃ m', doc_completedInteractions (snapshot (tracker (run cmds' w1)) lastVisit')
            = Some m' ∧ m' !! pageId = Some EmptyObject.
Proof.
  intros _ Hs Hst Hm.
  destruct (session_reload b w0 cmds lastVisit Hs Hst) as (w1 & E1 & E2).
  exists w1. split; [done|].
  intros cmds' interactionId lastVisit'.
  assert (completedInteractions (tracker (run cmds' w1)) !! pageId
          = Some (PlainData EmptyObject)) as E.
  { destruct (run_session cmds' w1) as [_ (_ & Hle & _)].
    eapply containers_le_plain; [exact Hle|].
    rewrite E2. simpl. by rewrite lookup_fmap, Hm. }
  split_and!.
  - done.
  - by eapply markInteractionComplete_plain.
  - unfold isPageCompleted. by rewrite E.
  - unfold recorded. by rewrite E.
  - eexists. split; [reflexivity|]. by rewrite lookup_fmap, E.
Qed.

Lemma stored_interactions_disable_page_witness :
  ∃ w1,
    reload (run [MarkInteractionComplete "reasons" "reason-1"] session_start)
    = Return () w1 ∧
    markInteractionComplete "reasons" "reason-2" (run [GoBack] w1)
    = Throw TypeError (run [GoBack] w1).
Proof.
  destruct (stored_interactions_disable_page fresh_browser session_start
              [MarkInteractionComplete "reasons" "reason-1"]
              (clock fresh_browser 0) "reasons" {[ "reason-1" ]})
    as (w1 & E1 & E2); [reflexivity | reflexivity | by vm_compute | by vm_compute |].
  exists w1. split; [exact E1|].
  exact (proj1 (proj2 (E2 [GoBack] "reason-2" ""))).
Defined.

(** X12: the number [updateWishesCounter] shows and compares with 8.  While
    the tracker holds a set (or nothing) for the gems of [wishes], it is
    the sum of the candles, the bubbles, the gems and the typewriter, and
    [wish-master] is due exactly from 8 on.  In a session that began with
    nothing stored, once gems are collected and the store holds the
    snapshot of the tracker, a reload returns and in every world the
    following session can reach the number is [NaN], whatever the
    counters: [wish-master] is never due, and [addCollectible] on
    [wishes] throws a [TypeError]. *)
Theorem wishes_counter
    (b : Browser) (w0 : world) (cmds : list command) (lastVisit : string)
    (members : gset string)
    (t : ProgressTracker) (candles bubbles : nat) (typewriter : bool) :
  ((∀ j', collectibles t !! "wishes" ≠ Some (PlainData j')) →
   totalWishes candles bubbles typewriter t
   = Some (candles + bubbles + size (members_of (collectibles t) "wishes")
           + (if typewriter then 1 else 0))%nat ∧
   wishMasterDue candles bubbles typewriter t
   = Nat.leb 8 (candles + bubbles + size (members_of (collectibles t) "wishes")
                + (if typewriter then 1 else 0))) ∧
  (localStorage b = None →
   startup b = Return () w0 →
   localStorage (env (run cmds w0))
   = Some (Document (snapshot (tracker (run cmds w0)) lastVisit)) →
   collectibles (tracker (run cmds w0)) !! "wishes" = Some (LiveSet members) →
   ∃ w1,
     reload (run cmds w0) = Return () w1 ∧
     ∀ cmds' gemId,
       totalWishes candles bubbles typewriter (tracker (run cmds' w1)) = None ∧
       wishMasterDue candles bubbles typewriter (tracker (run cmds' w1)) = false ∧
       addCollectible "wishes" gemId (run cmds' w1)
       = Throw TypeError (run cmds' w1)).
Proof.
  split.
  - intros Hp. unfold wishMasterDue, totalWishes, members_of. cbv zeta.
    destruct (collectibles t !! "wishes") as [[members'|j']|] eqn:E.
    + cbn [container_size]. generalize (size members'). intros n.
      destruct typewriter; simpl; rewrite ?Nat.add_0_r; done.
    + by destruct (Hp j').
    + rewrite size_empty. destruct typewriter; simpl; rewrite ?Nat.add_0_r; done.
  - intros _ Hs Hst Hm.
    destruct (session_reload b w0 cmds lastVisit Hs Hst) as (w1 & E1 & E2).
    exists w1. split; [done|].
    intros cmds' gemId.
    assert (collectibles (tracker (run cmds' w1)) !! "wishes"
            = Some (PlainData EmptyObject)) as E.
    { destruct (run_session cmds' w1) as [_ (_ & _ & _ & _ & Hle)].
      eapply containers_le_plain; [exact Hle|].
      rewrite E2. simpl. by rewrite lookup_fmap, Hm. }
    split_and!.
    + unfold totalWishes. cbv zeta. rewrite E. simpl. by destruct typewriter.
    + unfold wishMasterDue, totalWishes. cbv zeta. rewrite E. simpl.
      by destruct typewriter.
    + by eapply addCollectible_plain.
Qed.

Lemma wishes_counter_witness :
  (∀ j', collectibles (tracker busy_session) !! "wishes" ≠ Some (PlainData j')) ∧
  totalWishes 5 2 true (tracker busy_session) = Some 9%nat ∧
  wishMasterDue 5 2 true (tracker busy_session) = true ∧
  ∃ w1,
    reload (run [AddCollectible "wishes" "gem-1"] session_start) = Return () w1 ∧
    totalWishes 5 2 true (tracker w1) = None.
Proof.
  assert (H : ∀ j', collectibles (tracker busy_session) !! "wishes"
                    ≠ Some (PlainData j')) by (intros j'; by vm_compute).
  split; [exact H|].
  destruct (wishes_counter fresh_browser session_start
              [AddCollectible "wishes" "gem-1"] (clock fresh_browser 0)
              {[ "gem-1" ]} (tracker busy_session) 5 2 true) as [A B].
  destruct (A H) as [E1 E2].
  split; [exact E1|]. split; [exact E2|].
  destruct B as (w1 & F1 & F2);
    [reflexivity | reflexivity | by vm_compute | by vm_compute |].
  exists w1. split; [exact F1|]. exact (proj1 (F2 [] "gem-2")).
Defined.

(** ** What the script unlocks, and what it never does *)

Lemma untouched_refl K w : untouched K w w.
Proof. by intros k _. Qed.

Lemma untouched_trans K w1 w2 w3 :
  untouched K w1 w2 → untouched K w2 w3 → untouched K w1 w3.
Proof. intros H1 H2 k Hk. by rewrite H2, H1. Qed.

Lemma tracked_unlocks_untouched (K P : string → Prop) w w' :
  (∀ k, K k → ¬ P k) → tracked w w' → unlocks P w w' → untouched K w w'.
Proof.
  intros HKP [_ (_ & _ & _ & Hsub & _)] Hu k Hk.
  destruct (achievements (tracker w') !! k) as [r|] eqn:E.
  - destruct (Hu k r E) as [H|[HP _]]; [done|]. by destruct (HKP k Hk).
  - destruct (achievements (tracker w) !! k) as [r|] eqn:E'; [|done].
    eapply lookup_weaken in E'; [|exact Hsub]. congruence.
Qed.

Lemma unlockAchievement_untouched (K : string → Prop) achievementId :
  ¬ K achievementId → preserves (untouched K) (unlockAchievement achievementId).
Proof.
  intros HK w. unfold preserved_at.
  eapply tracked_unlocks_untouched;
    [|apply unlockAchievement_tracked|apply unlockAchievement_unlocks].
  intros k Hk ->. done.
Qed.

Lemma trackProgress_untouched (K : string → Prop) pageId :
  ¬ K (first_visit pageId) → preserves (untouched K) (trackProgress pageId).
Proof.
  intros HK w. unfold preserved_at.
  eapply tracked_unlocks_untouched;
    [|apply trackProgress_tracked|apply trackProgress_unlocks].
  intros k Hk ->. done.
Qed.

Lemma ach_same_untouched K w w' : ach_same w w' → untouched K w w'.
Proof. intros H k _. unfold ach_same in H. by rewrite H. Qed.

(** The literal ids of the script are none of the dormant ones, nor a
    first-visit id. *)
Lemma script_achievement_ids_live achievementId :
  achievementId ∈ script_achievement_ids →
  (achievementId ∉ never_unlocked) ∧ achievementId ≠ "collector" ∧
  ∀ pageId, achievementId ≠ first_visit pageId.
Proof.
  revert achievementId. apply Forall_forall.
  unfold script_achievement_ids.
  repeat (apply Forall_cons; split;
          [split_and!; [compute_done | done | by intros pageId]|]).
  apply Forall_nil_2.
Qed.

Lemma first_visit_inj pageId pageId' :
  first_visit pageId = first_visit pageId' → pageId = pageId'.
Proof. unfold first_visit. simpl. by intros [=]. Qed.

Lemma first_visit_live pageId :
  (first_visit pageId ∉ never_unlocked) ∧ first_visit pageId ≠ "collector".
Proof.
  split; [|done]. unfold never_unlocked.
  rewrite !elem_of_cons, elem_of_nil. by intros [|[|[|[|[|[|]]]]]].
Qed.

Lemma checkLayerCompletion_relation (R : world → world → Prop) surprisesUnlocked :
  (∀ w, R w w) →
  (∀ w1 w2 w3, R w1 w2 → R w2 w3 → R w1 w3) →
  (∀ achievementId, achievementId ∈ script_achievement_ids →
                    preserves R (unlockAchievement achievementId)) →
  preserves R (checkLayerCompletion surprisesUnlocked).
Proof.
  intros Hrefl Htrans Hids w. unfold checkLayerCompletion.
  walk Hrefl Htrans ltac:(fun _ => apply Hids; compute_done).
Qed.

(** A relation that only depends on the trackers, and that holds whenever
    the tracker made progress without touching the achievements, is kept
    by every step of the script once the places that unlock achievements
    keep it. *)
Lemma perform_tracker_relation (R : world → world → Prop) s :
  (∀ w w', tracker w' = tracker w → R w w') →
  (∀ w1 w2 w3, R w1 w2 → R w2 w3 → R w1 w3) →
  (∀ w w', tracked w w' → ach_same w w' → R w w') →
  (∀ pageId, preserves R (trackProgress pageId)) →
  (∀ achievementId, achievementId ∈ script_achievement_ids →
                    preserves R (unlockAchievement achievementId)) →
  preserves R ensureDerivedAchievements →
  from_script s →
  preserves R (perform s).
Proof.
  intros Hsame Htrans Hquiet Htrack Hids Hderived Hs.
  destruct s as [c| |surprisesUnlocked]; simpl.
  - apply call_tracker_relation; try done.
    + apply Hids. compute_done.
    + destruct c; try done. by apply Hids.
  - done.
  - apply checkLayerCompletion_relation; try done. intros w. by apply Hsame.
Qed.

Lemma play_snoc steps s w : play (steps ++ [s]) w = final (perform s (play steps w)).
Proof. unfold play. by rewrite foldl_app. Qed.

Lemma play_related (R : world → world → Prop) steps w :
  (∀ w, R w w) →
  (∀ w1 w2 w3, R w1 w2 → R w2 w3 → R w1 w3) →
  (∀ s, from_script s → preserves R (perform s)) →
  Forall from_script steps →
  R w (play steps w).
Proof.
  intros Hrefl Htrans Hstep Hs.
  induction steps as [|s steps IH] using rev_ind; [apply Hrefl|].
  apply Forall_app in Hs as [Hs Hs1]. rewrite Forall_singleton in Hs1.
  rewrite play_snoc. eapply Htrans; [by apply IH|]. by apply Hstep.
Qed.

Lemma dormant_untouched w w' :
  untouched (λ k, k ∈ never_unlocked ∨ k = "collector") w w' → dormant w w'.
Proof.
  intros H. split.
  - intros k Hk. apply H. by left.
  - intros _. apply H. by right.
Qed.

Lemma dormant_trans w1 w2 w3 : dormant w1 w2 → dormant w2 w3 → dormant w1 w3.
Proof.
  intros [A1 A2] [B1 B2]. split; [by eapply untouched_trans|].
  intros H. rewrite B2, A2; [done..|].
  destruct H as [H|H]; [left|right]; rewrite A1; try done; compute_done.
Qed.

Lemma ensureDerivedAchievements_dormant : preserves dormant ensureDerivedAchievements.
Proof.
  intros w. unfold preserved_at, ensureDerivedAchievements.
  erewrite bind_Return; [|reflexivity]. cbv zeta.
  destruct (bool_decide (is_Some (achievements (tracker w) !! "heart-collector")))
    eqn:E1;
    [|rewrite !andb_false_r; simpl; apply dormant_untouched, untouched_refl].
  destruct (bool_decide (is_Some (achievements (tracker w) !! "star-collector")))
    eqn:E2;
    [|rewrite !andb_false_r; simpl; apply dormant_untouched, untouched_refl].
  destruct (negb _ && _ && _ && _);
    [|simpl; apply dormant_untouched, untouched_refl].
  rewrite final_seq_ret. split.
  - apply unlockAchievement_untouched. compute_done.
  - apply bool_decide_eq_true in E1 as [r1 E1].
    apply bool_decide_eq_true in E2 as [r2 E2].
    intros [H|H]; congruence.
Qed.

Lemma perform_dormant s : from_script s → preserves dormant (perform s).
Proof.
  intros Hs. apply perform_tracker_relation; try done.
  - intros w w' H. apply dormant_untouched, ach_same_untouched.
    unfold ach_same. by rewrite H.
  - apply dormant_trans.
  - intros w w' _ H. by apply dormant_untouched, ach_same_untouched.
  - intros pageId w. apply dormant_untouched, trackProgress_untouched.
    destruct (first_visit_live pageId). by intros [|].
  - intros achievementId Hid w.
    apply dormant_untouched, unlockAchievement_untouched.
    destruct (script_achievement_ids_live _ Hid) as (? & ? & _). by intros [|].
  - apply ensureDerivedAchievements_dormant.
Qed.

(** X15: whatever the script does in a session, nothing is ever filed under
    [explorer], [surprise-message], [surprise-photo], [surprise-wish],
    [heart-collector] or [star-collector]: four of the eight entries of
    the metadata table are for achievements that cannot be earned.  And
    as [collector] is only derived from [heart-collector],
    [memory-keeper] and [star-collector], it is never unlocked either in
    a session that starts without one of those two. *)
Theorem script_never_unlocks (w : world) (steps : list script_step) :
  Forall from_script steps →
  (∀ k, k ∈ never_unlocked →
        achievements (tracker (play steps w)) !! k = achievements (tracker w) !! k) ∧
  (achievements (tracker w) !! "heart-collector" = None ∨
   achievements (tracker w) !! "star-collector" = None →
   achievements (tracker (play steps w)) !! "collector"
   = achievements (tracker w) !! "collector").
Proof.
  intros Hs.
  apply (play_related dormant steps w);
    [ intros w1; apply dormant_untouched, untouched_refl
    | apply dormant_trans | apply perform_dormant | exact Hs ].
Qed.

Lemma script_never_unlocks_witness :
  Forall from_script
    [ Command (NavigateTo "gallery" "slide"); Command (UnlockAchievement "memory-keeper");
      EnsureDerived; CheckLayers {[ "password" ]} ] ∧
  achievements (tracker (play
    [ Command (NavigateTo "gallery" "slide"); Command (UnlockAchievement "memory-keeper");
      EnsureDerived; CheckLayers {[ "password" ]} ] session_start)) !! "collector"
  = None.
Proof.
  assert (H : Forall from_script
    [ Command (NavigateTo "gallery" "slide"); Command (UnlockAchievement "memory-keeper");
      EnsureDerived; CheckLayers {[ "password" ]} ]).
  { repeat constructor. }
  split; [exact H|].
  exact (proj2 (script_never_unlocks session_start _ H) (or_introl eq_refl)).
Defined.

(** ** The achievement of a first visit *)

Lemma trackProgress_present w pageId :
  pageId ∈ visitedPages (tracker w) → trackProgress pageId w = Return () w.
Proof.
  intros H. unfold trackProgress.
  erewrite bind_Return; [|by apply markPageVisited_present]. done.
Qed.

Lemma trackProgress_full w pageId :
  pageId ∉ visitedPages (tracker w) →
  quota_exceeded (env w) = true →
  trackProgress pageId w
  = Throw QuotaExceededError
      (with_env (save_attempted (visit pageId (tracker w)))
         (with_tracker (visit pageId) w)).
Proof.
  intros H Hq. unfold trackProgress.
  erewrite bind_Throw; [done|].
  rewrite markPageVisited_fresh by done.
  erewrite bind_Throw; [done|].
  rewrite saveProgress_full; [|by destruct w as [[? ? ? []] ? []]].
  by destruct w as [[? ? ? []] ? []].
Qed.

Lemma trackProgress_fresh w pageId :
  pageId ∉ visitedPages (tracker w) →
  quota_exceeded (env w) = false →
  trackProgress pageId w
  = (if negb (String.eqb pageId "landing") && negb (String.eqb pageId "menu")
     then unlockAchievement (first_visit pageId);; mret ()
     else mret ())
      (with_env (saved (visit pageId (tracker w))) (with_tracker (visit pageId) w)).
Proof.
  intros H Hq.
  assert (markPageVisited pageId w
          = Return true (with_env (saved (visit pageId (tracker w)))
                           (with_tracker (visit pageId) w))) as E.
  { rewrite markPageVisited_fresh by done.
    erewrite bind_Return;
      [|apply saveProgress_ok; by destruct w as [[? ? ? []] ? []]].
    by destruct w as [[? ? ? []] ? []]. }
  unfold trackProgress. erewrite bind_Return; [|exact E]. done.
Qed.

Lemma visit_settled_trans pageId w1 w2 w3 :
  visit_settled pageId w1 w2 → visit_settled pageId w2 w3 →
  visit_settled pageId w1 w3.
Proof.
  intros H1 H2 Hin. destruct (H1 Hin) as [Hin2 E1].
  destruct (H2 Hin2) as [Hin3 E2]. split; [done|]. by rewrite E2.
Qed.

Lemma visit_settled_untouched pageId w w' :
  tracked w w' → untouched (λ k, k = first_visit pageId) w w' →
  visit_settled pageId w w'.
Proof.
  intros [_ (Hsub & _)] Hu Hin. split; [by apply Hsub|]. by apply Hu.
Qed.

Lemma ensureDerivedAchievements_walk (R : world → world → Prop) :
  (∀ w, R w w) →
  (∀ w1 w2 w3, R w1 w2 → R w2 w3 → R w1 w3) →
  preserves R (unlockAchievement "collector") →
  preserves R ensureDerivedAchievements.
Proof.
  intros Hrefl Htrans Hc w. unfold ensureDerivedAchievements. cbv zeta.
  walk Hrefl Htrans ltac:(fun _ => apply Hc).
Qed.

Lemma unlockAchievement_visit_settled pageId achievementId :
  achievementId ≠ first_visit pageId →
  preserves (visit_settled pageId) (unlockAchievement achievementId).
Proof.
  intros Hne w. apply visit_settled_untouched;
    [apply unlockAchievement_tracked|].
  apply unlockAchievement_untouched. congruence.
Qed.

Lemma perform_visit_settled pageId s :
  from_script s → preserves (visit_settled pageId) (perform s).
Proof.
  intros Hs. apply perform_tracker_relation; try done.
  - intros w w' H. unfold visit_settled. by rewrite H.
  - apply visit_settled_trans.
  - intros w w' Ht H. apply visit_settled_untouched; [done|].
    by apply ach_same_untouched.
  - intros page w Hin. unfold preserved_at.
    destruct (decide (page = pageId)) as [->|Hne].
    + by rewrite trackProgress_present.
    + revert Hin. apply visit_settled_untouched; [apply trackProgress_tracked|].
      apply trackProgress_untouched. intros H. by apply first_visit_inj in H.
  - intros achievementId Hid. apply unlockAchievement_visit_settled.
    by destruct (script_achievement_ids_live _ Hid) as (_ & _ & ?).
  - apply ensureDerivedAchievements_walk.
    + by intros w.
    + apply visit_settled_trans.
    + by apply unlockAchievement_visit_settled.
Qed.

Lemma navigateTo_registered_throws w pageId transitionType :
  is_Some (pages (pm w) !! pageId) →
  pageId ∉ visitedPages (tracker w) →
  quota_exceeded (env w) = true →
  navigateTo pageId transitionType w
  = Throw QuotaExceededError
      (with_env (save_attempted (visit pageId (tracker w)))
         (with_tracker (visit pageId) (arrive pageId transitionType w))).
Proof.
  intros Hp Hv Hq.
  rewrite navigateTo_hooks, PageManager_navigateTo_registered by done.
  erewrite bind_Throw; [done|].
  rewrite trackProgress_full; [|by destruct w as [[? ? ? []] ? []]..].
  by destruct w as [[? ? ? []] ? []].
Qed.

(** X16: when the store is full, the first navigation to a registered page
    throws after the page became the current page and one of the visited
    pages, and before its first-visit achievement is unlocked.  From then
    on the page counts as visited, so nothing the script does later in
    the session, with the store full or writable again, unlocks that
    achievement: it is lost for the session. *)
Theorem first_visit_achievement_lost (w : world) (pageId transitionType : string) :
  is_Some (pages (pm w) !! pageId) →
  pageId ∉ visitedPages (tracker w) →
  quota_exceeded (env w) = true →
  ∃ w1,
    navigateTo pageId transitionType w = Throw QuotaExceededError w1 ∧
    currentPage (pm w1) = pageId ∧
    pageId ∈ visitedPages (tracker w1) ∧
    achievements (tracker w1) = achievements (tracker w) ∧
    localStorage (env w1) = localStorage (env w) ∧
    ∀ steps, Forall from_script steps →
      achievements (tracker (play steps w1)) !! first_visit pageId
      = achievements (tracker w) !! first_visit pageId.
Proof.
  intros Hp Hv Hq. eexists. split; [by apply navigateTo_registered_throws|].
  set (w1 := with_env _ _).
  assert (pageId ∈ visitedPages (tracker w1)) as Hin.
  { assert (pageId ∈ visitedPages (visit pageId (tracker w))) as Hin
      by (apply elem_of_union_l, elem_of_singleton; done).
    by destruct w as [[? ? ? []] ? []]. }
  assert (achievements (tracker w1) = achievements (tracker w)) as Ha
    by (by destruct w as [[? ? ? []] ? []]).
  split_and!; [by destruct w as [[? ? ? []] ? []] | done | done
              | by destruct w as [[? ? ? []] ? []] |].
  intros steps Hs. rewrite <- Ha.
  apply (play_related (visit_settled pageId) steps w1);
    [ by intros w2 | apply visit_settled_trans
    | apply perform_visit_settled | exact Hs | exact Hin ].
Qed.

Lemma first_visit_achievement_lost_witness :
  ∃ w1,
    navigateTo "gallery" "slide" (final (call (StoreFull true) session_start))
    = Throw QuotaExceededError w1 ∧
    achievements (tracker (play
      [ Command (StoreFull false); Command (NavigateTo "menu" "slide");
        Command (NavigateTo "gallery" "slide") ] w1)) !! "first-visit-gallery"
    = None.
Proof.
  destruct (first_visit_achievement_lost
              (final (call (StoreFull true) session_start)) "gallery" "slide")
    as (w1 & E & _ & _ & _ & _ & H);
    [eexists; reflexivity | compute_done | reflexivity |].
  exists w1. split; [exact E|].
  apply (H [ Command (StoreFull false); Command (NavigateTo "menu" "slide");
             Command (NavigateTo "gallery" "slide") ]).
  repeat constructor.
Defined.

Lemma trackProgress_effect w pageId :
  quota_exceeded (env w) = false →
  ∃ w',
    trackProgress pageId w = Return () w' ∧
    visitedPages (tracker w') = {[pageId]} ∪ visitedPages (tracker w) ∧
    achievements (tracker w')
    = (if first_visit_due pageId (tracker w)
       then <[first_visit pageId :=
                record_for (first_visit pageId) (clock (env w) (S (ticks (env w))))]>
              (achievements (tracker w))
       else achievements (tracker w)) ∧
    log (env w') = (log (env w) ++ trackProgress_events pageId w)%list.
Proof.
  intros Hq. unfold trackProgress_events, first_visit_due. cbv zeta.
  destruct (decide (pageId ∈ visitedPages (tracker w))) as [Hin|Hin].
  { exists w. rewrite trackProgress_present by done.
    rewrite bool_decide_eq_true_2 by done. simpl.
    split_and!; [done | set_solver | done | by rewrite app_nil_r]. }
  rewrite bool_decide_eq_false_2 by done. cbn [negb andb].
  rewrite trackProgress_fresh by done.
  set (w1 := with_env _ _).
  assert (visitedPages (tracker w1) = {[pageId]} ∪ visitedPages (tracker w)) as Ev
    by (by destruct w as [[? ? ? []] ? []]).
  assert (achievements (tracker w1) = achievements (tracker w)) as Ea
    by (by destruct w as [[? ? ? []] ? []]).
  assert (quota_exceeded (env w1) = false) as Hq1
    by (by destruct w as [[? ? ? []] ? []]).
  destruct (negb (String.eqb pageId "landing") && negb (String.eqb pageId "menu"));
    cbn [andb].
  2: { exists w1. subst w1. split_and!; [done | done | done |].
       by destruct w as [[? ? ? []] ? []]. }
  destruct (achievements (tracker w) !! first_visit pageId) as [r|] eqn:E.
  - exists w1. rewrite bool_decide_eq_true_2 by done. cbn [negb].
    erewrite bind_Return;
      [|apply unlockAchievement_present; rewrite Ea, E; by eexists].
    subst w1. split_and!; [done | done | done |].
    by destruct w as [[? ? ? []] ? []].
  - exists (unlocked_world (first_visit pageId) w1).
    rewrite bool_decide_eq_false_2 by (by intros [? ?]). cbn [negb].
    erewrite bind_Return;
      [|apply unlockAchievement_fresh; [by rewrite Ea|done]].
    clear Ev Ea Hq1. subst w1.
    split_and!; [done | by destruct w as [[? ? ? []] ? []]
                | by destruct w as [[? ? ? []] ? []] |].
    destruct w as [[? ? ? []] ? []]. simpl. by rewrite <- !app_assoc.
Qed.

Lemma notification_in_events pageId transitionType w data :
  ShowAchievementNotification data ∈ navigateTo_events pageId transitionType w ↔
  first_visit_due pageId (tracker w) = true ∧
  data = getAchievementData (first_visit pageId).
Proof.
  unfold navigateTo_events, trackProgress_events. cbv zeta.
  rewrite !elem_of_app. split.
  - intros [H|[[H|H]|H]].
    + destruct (_ && _); [|by apply elem_of_nil in H].
      apply list_elem_of_singleton in H. discriminate.
    + destruct (bool_decide _); [by apply elem_of_nil in H|].
      apply list_elem_of_singleton in H. discriminate.
    + destruct (first_visit_due _ _); [|by apply elem_of_nil in H].
      apply elem_of_cons in H as [H|H]; [discriminate|].
      apply list_elem_of_singleton in H. by injection H as ->.
    + apply hook_timers_are_timers in H as (cb & delay & H). discriminate.
  - intros [-> ->]. right. left. right. right. left.
Qed.

(** X17: while the store accepts writes, a navigation to a registered page
    returns, and the page is among the visited pages afterwards.  It
    unlocks the achievement [first-visit-<page>] exactly when the page had
    not been visited, is neither landing nor menu, and nothing is filed
    under that id yet: then the record is stored under that id, stamped
    with the clock reading that follows the one of the progress write;
    otherwise the achievements stay as they are.  The log gains exactly
    the transition (when both page elements exist), the write of a first
    visit, the write and the notification of the achievement when it is
    unlocked, and the timers of the wrappers; so a notification is shown
    exactly when the achievement is unlocked, and it is the one of that
    achievement. *)
Theorem navigateTo_first_visit (w : world) (pageId transitionType : string) :
  is_Some (pages (pm w) !! pageId) →
  quota_exceeded (env w) = false →
  ∃ w',
    navigateTo pageId transitionType w = Return Undefined w' ∧
    visitedPages (tracker w') = {[pageId]} ∪ visitedPages (tracker w) ∧
    achievements (tracker w')
    = (if first_visit_due pageId (tracker w)
       then <[first_visit pageId :=
                record_for (first_visit pageId) (clock (env w) (S (ticks (env w))))]>
              (achievements (tracker w))
       else achievements (tracker w)) ∧
    log (env w')
    = (log (env w) ++ navigateTo_events pageId transitionType w)%list ∧
    (∀ data,
       ShowAchievementNotification data
       ∈ navigateTo_events pageId transitionType w ↔
       first_visit_due pageId (tracker w) = true ∧
       data = getAchievementData (first_visit pageId)).
Proof.
  intros Hp Hq.
  destruct (trackProgress_effect (arrive pageId transitionType w) pageId)
    as (w1 & E & Ev & Ea & El); [by destruct w as [[? ? ? []] ? []]|].
  exists (with_env (logged (hook_timers pageId)) w1).
  rewrite navigateTo_hooks, PageManager_navigateTo_registered by done.
  erewrite bind_Return; [|exact E]. simpl.
  assert (tracker (arrive pageId transitionType w) = tracker w) as Et
    by (by destruct w as [[? ? ? []] ? []]).
  assert (clock (env (arrive pageId transitionType w))
            (S (ticks (env (arrive pageId transitionType w))))
          = clock (env w) (S (ticks (env w)))) as Ec
    by (by destruct w as [[? ? ? []] ? []]).
  assert (trackProgress_events pageId (arrive pageId transitionType w)
          = trackProgress_events pageId w) as Ee
    by (by destruct w as [[? ? ? []] ? []]).
  rewrite Et in Ev, Ea. rewrite Ec in Ea. rewrite Ee in El.
  split_and!; [done | | | |].
  - rewrite <- Ev. by destruct w1 as [[? ? ? []] ? []].
  - rewrite <- Ea. by destruct w1 as [[? ? ? []] ? []].
  - unfold navigateTo_events.
    replace (log (env (with_env (logged (hook_timers pageId)) w1)))
      with (log (env w1) ++ hook_timers pageId)%list
      by (by destruct w1 as [[? ? ? []] ? []]).
    rewrite El.
    replace (log (env (arrive pageId transitionType w)))
      with (log (env w) ++
            (if bool_decide (currentPage (pm w) ∈ dom_pages (env w))
                && bool_decide (pageId ∈ dom_pages (env w))
             then [ExecuteTransition (currentPage (pm w)) pageId transitionType]
             else []))%list
      by (by destruct w as [[? ? ? []] ? []]).
    by rewrite <- !app_assoc.
  - intros data. apply notification_in_events.
Qed.

Lemma navigateTo_first_visit_witness :
  ∃ w',
    navigateTo "gallery" "slide" session_start = Return Undefined w' ∧
    achievements (tracker w') !! "first-visit-gallery"
    = Some (record_for "first-visit-gallery" (clock fresh_browser 1)) ∧
    length (log (env w')) = 4.
Proof.
  destruct (navigateTo_first_visit session_start "gallery" "slide")
    as (w' & E & _ & Ea & El & _); [eexists; reflexivity | reflexivity |].
  exists w'. split; [exact E|]. split; [rewrite Ea; reflexivity|].
  rewrite El. reflexivity.
Defined.

(** ** The completion percentage in a session *)

Lemma trackProgress_final_visited w pageId :
  visitedPages (tracker (final (trackProgress pageId w)))
  = {[pageId]} ∪ visitedPages (tracker w).
Proof.
  destruct (decide (pageId ∈ visitedPages (tracker w))) as [Hin|Hin].
  { rewrite trackProgress_present by done. simpl. set_solver. }
  destruct (quota_exceeded (env w)) eqn:Hq.
  - rewrite trackProgress_full by done. by destruct w as [[? ? ? []] ? []].
  - destruct (trackProgress_effect w pageId Hq) as (w' & -> & Ev & _). done.
Qed.

Lemma navigateTo_registered_final_visited w pageId transitionType :
  is_Some (pages (pm w) !! pageId) →
  visitedPages (tracker (final (navigateTo pageId transitionType w)))
  = {[pageId]} ∪ visitedPages (tracker w).
Proof.
  intros Hp. rewrite navigateTo_hooks, PageManager_navigateTo_registered by done.
  pose proof (trackProgress_final_visited (arrive pageId transitionType w) pageId)
    as Ev.
  assert (tracker (arrive pageId transitionType w) = tracker w) as Et
    by (by destruct w as [[? ? ? []] ? []]).
  rewrite Et in Ev. rewrite <- Ev.
  unfold mbind, M_bind.
  destruct (trackProgress pageId (arrive pageId transitionType w)) as [v w1|e w1];
    simpl; [|done].
  by destruct w1 as [[? ? ? []] ? []].
Qed.

Lemma getCompletionPercentage_mono t t' :
  visitedPages t ⊆ visitedPages t' →
  (getCompletionPercentage t ≤ getCompletionPercentage t')%Z.
Proof.
  intros H. rewrite !getCompletionPercentage_quarters.
  assert (size (visitedPages t ∩ validPages)
          ≤ size (visitedPages t' ∩ validPages))%nat
    by (apply subseteq_size; set_solver).
  lia.
Qed.

(** X18: the completion percentage never decreases in a session, whatever
    the handlers do and whether they return or throw; it is 100 exactly
    when gallery, reasons, wishes and games are all among the visited
    pages; and the first navigation to one of these four pages raises it
    by exactly 25, also when the progress write fails. *)
Theorem completion_in_session
    (w : world) (cmds : list command) (pageId transitionType : string) :
  (getCompletionPercentage (tracker w)
   ≤ getCompletionPercentage (tracker (run cmds w)))%Z ∧
  (getCompletionPercentage (tracker w) = 100%Z
   ↔ validPages ⊆ visitedPages (tracker w)) ∧
  (is_Some (pages (pm w) !! pageId) →
   pageId ∈ validPages →
   pageId ∉ visitedPages (tracker w) →
   getCompletionPercentage (tracker (final (navigateTo pageId transitionType w)))
   = (getCompletionPercentage (tracker w) + 25)%Z).
Proof.
  split_and!.
  - apply getCompletionPercentage_mono.
    by destruct (run_session cmds w) as [_ (H & _)].
  - rewrite getCompletionPercentage_quarters.
    pose proof (valid_visited_le (visitedPages (tracker w))) as Hle.
    split.
    + intros H.
      assert (visitedPages (tracker w) ∩ validPages = validPages) as Heq.
      { apply set_subseteq_size_eq; [set_solver|]. rewrite size_validPages. lia. }
      set_solver.
    + intros H.
      replace (visitedPages (tracker w) ∩ validPages) with validPages
        by set_solver.
      by rewrite size_validPages.
  - intros Hp Hv Hn.
    rewrite !getCompletionPercentage_quarters,
      navigateTo_registered_final_visited by done.
    replace (({[pageId]} ∪ visitedPages (tracker w)) ∩ validPages)
      with ({[pageId]} ∪ visitedPages (tracker w) ∩ validPages) by set_solver.
    rewrite size_union by set_solver. rewrite size_singleton. lia.
Qed.

Lemma completion_in_session_witness :
  getCompletionPercentage
    (tracker (final (navigateTo "gallery" "slide"
                       (final (call (StoreFull true) session_start)))))
  = 25%Z.
Proof.
  apply (proj2 (proj2
    (completion_in_session (final (call (StoreFull true) session_start)) []
       "gallery" "slide"))).
  - eexists. reflexivity.
  - compute_done.
  - compute_done.
Defined.
